(** * Mureka API client: request execution and response validation

    A shallow embedding of [src/index.ts] (package [@superbuilders/mureka]):
    the [createClient] factory, its inner [request] executor, the sixteen
    endpoint functions and the zod schemas they validate against, together
    with the properties of the pipeline stated in the specification.

    Conventions.
    - JavaScript values are the inductive [JsValue]; objects are finite maps
      from property names to values, and reading a property that is not
      there yields [VUndefined], as in JavaScript.
    - A promise that resolves or rejects, and a call that returns or throws,
      is a [Result]: [Ok data] or [Throw error].
    - What the host provides ([fetch], [JSON.parse], [JSON.stringify],
      [String.prototype.toLowerCase], [String.prototype.trim], the [URL]
      constructor) is a [Platform] record the client is parameterised by.
    - An endpoint call returns an [Outcome]: the network requests it issued
      and its result. *)

From Stdlib Require Import QArith Ascii.
From stdpp Require Import gmap strings list fin_maps pretty.

Open Scope Z_scope.
Open Scope string_scope.
Open Scope list_scope.

(** ** JavaScript values *)

(** A JavaScript number as far as the schemas look at it: a finite value
    or an infinity. *)
Inductive Number :=
| Finite (q : Q)
| Infinite (negative : bool).

(** [Number.isInteger]. *)
Definition isInteger (n : Number) : bool :=
  match n with
  | Finite q => (Qnum q mod Zpos (Qden q) =? 0)%Z
  | Infinite _ => false
  end.

#[warnings="-register-all"]
Inductive JsValue :=
| VUndefined
| VNull
| VBool (b : bool)
| VNumber (n : Number)
| VString (s : string)
| VArray (items : list JsValue)
| VObject (fields : gmap string JsValue).

(** Property read [data[key]]. *)
Definition access (data : gmap string JsValue) (key : string) : JsValue :=
  default VUndefined (data !! key).

(** Object literal [{ k1: v1, ... }] in which a property whose value is
    [undefined] is left out, which is what [JSON.stringify] sees. *)
Definition object_of (props : list (string * option JsValue)) : JsValue :=
  VObject (list_to_map (omap (λ kv, pair kv.1 <$> kv.2) props)).

Definition int_value (z : Z) : JsValue := VNumber (Finite (inject_Z z)).

(** ** Zod issues and errors *)

Inductive PathSeg :=
| PKey (key : string)
| PIndex (index : nat).

Inductive ParsedType :=
| TUndefined | TNull | TBoolean | TNumber | TInteger | TFloat
| TString | TArray | TObject.

Inductive Expected :=
| ExpectedType (t : ParsedType)
| ExpectedOneOf (options : list string).

Inductive ZodIssue :=
| invalid_type (expected : Expected) (received : ParsedType) (path : list PathSeg)
| invalid_enum_value (options : list string) (received : string) (path : list PathSeg)
| invalid_string (validation : string) (path : list PathSeg).

(** Errors as [@superbuilders/errors] builds them, and the exceptions the
    host and zod raise. *)
Inductive Error :=
| ErrNew (msg : string)
| ErrWrap (cause : Error) (msg : string)
| ErrNative (name : string) (detail : string)
| ErrZod (issues : list ZodIssue).

Inductive Result (A : Type) :=
| Ok (data : A)
| Throw (error : Error).
Arguments Ok {A} data.
Arguments Throw {A} error.

(** ** The six classified API errors and the status table *)

Definition ErrInvalidRequest : Error :=
  ErrNew "(status: 400) the request parameters are incorrect".
Definition ErrInvalidAuthentication : Error :=
  ErrNew "(status: 401) invalid authentication".
Definition ErrForbidden : Error :=
  ErrNew "(status: 403) accessing the api from an unsupported region".
Definition ErrRateLimitOrQuotaExceeded : Error :=
  ErrNew "(status: 429) sending requests too quickly or current quota exceeded".
Definition ErrServerError : Error :=
  ErrNew "(status: 500) issue on our servers".
Definition ErrEngineOverloaded : Error :=
  ErrNew "(status: 503) servers experiencing high traffic".

Definition STATUS_TO_ERROR : gmap Z Error :=
  <[400 := ErrInvalidRequest]>
  (<[401 := ErrInvalidAuthentication]>
  (<[403 := ErrForbidden]>
  (<[429 := ErrRateLimitOrQuotaExceeded]>
  (<[500 := ErrServerError]>
  (<[503 := ErrEngineOverloaded]> ∅))))).

Definition MUREKA_API_BASE_URL : string := "https://api.mureka.ai".

(** ** Enumerations *)

Inductive Purpose :=
| reference | vocal | melody | instrumental | voice | fine_tuning.

Definition Purpose_name (p : Purpose) : string :=
  match p with
  | reference => "reference" | vocal => "vocal" | melody => "melody"
  | instrumental => "instrumental" | voice => "voice"
  | fine_tuning => "fine-tuning"
  end.

Definition PURPOSES : list string :=
  Purpose_name <$> [reference; vocal; melody; instrumental; voice; fine_tuning].

Inductive Model := auto_model | mureka_6 | mureka_5_5.

Definition Model_name (m : Model) : string :=
  match m with
  | auto_model => "auto" | mureka_6 => "mureka-6" | mureka_5_5 => "mureka-5.5"
  end.

Definition MODELS : list string := Model_name <$> [auto_model; mureka_6; mureka_5_5].

Definition TASK_STATUSES : list string :=
  ["preparing"; "queued"; "running"; "succeeded"; "failed"; "timeouted"; "cancelled"].

Inductive Voice := Ethan | Victoria | Jake | Luna | Ema.

Definition Voice_name (v : Voice) : string :=
  match v with
  | Ethan => "Ethan" | Victoria => "Victoria" | Jake => "Jake"
  | Luna => "Luna" | Ema => "Ema"
  end.

Definition VOICES : list string := Voice_name <$> [Ethan; Victoria; Jake; Luna; Ema].

Definition SECTION_TYPES : list string :=
  ["intro"; "verse"; "pre-chorus"; "chorus"; "bridge"; "breakdown"; "outro"].

Definition UPLOAD_STATUSES : list string := ["pending"; "completed"; "cancelled"].

(** ** Zod schemas

    The schema combinators the source uses: [z.string()],
    [z.string().url()], [z.number().int()], [z.enum(...)], [z.array(...)],
    [z.object({...})] (zod's default mode, which strips unknown keys) and
    [.optional()]. *)

#[warnings="-register-all"]
Inductive Schema :=
| ZodString
| ZodStringUrl
| ZodInt
| ZodEnum (options : list string)
| ZodArray (element : Schema)
| ZodObject (shape : list (string * Schema))
| ZodOptional (inner : Schema).

Definition getParsedType (v : JsValue) : ParsedType :=
  match v with
  | VUndefined => TUndefined
  | VNull => TNull
  | VBool _ => TBoolean
  | VNumber _ => TNumber
  | VString _ => TString
  | VArray _ => TArray
  | VObject _ => TObject
  end.

Inductive ParseReturn :=
| PValid (value : JsValue)
| PInvalid (issues : list ZodIssue).

(** Merging the parsed property [key] into the output object: the key is
    set when its value is defined or when the input had the key. *)
Definition set_parsed (data : gmap string JsValue) (key : string) (value : JsValue)
    (out : gmap string JsValue) : gmap string JsValue :=
  match value with
  | VUndefined => if bool_decide (key ∈ dom data) then <[key := VUndefined]> out else out
  | _ => <[key := value]> out
  end.

Section Zod.

(** [new URL(s)] does not throw. *)
Variable canParseURL : string → bool.

(** [schema._parse]: every issue of every property and element is
    collected, in the order of the shape and of the array, and the value is
    valid when there is none. A shape is written as an object literal, so
    it declares each key once ([distinct_keys] below). *)
Fixpoint zparse (s : Schema) (path : list PathSeg) (v : JsValue) {struct s} : ParseReturn :=
  match s with
  | ZodString =>
      match v with
      | VString _ => PValid v
      | _ => PInvalid [invalid_type (ExpectedType TString) (getParsedType v) path]
      end
  | ZodStringUrl =>
      match v with
      | VString x =>
          if canParseURL x then PValid v else PInvalid [invalid_string "url" path]
      | _ => PInvalid [invalid_type (ExpectedType TString) (getParsedType v) path]
      end
  | ZodInt =>
      match v with
      | VNumber n =>
          if isInteger n then PValid v
          else PInvalid [invalid_type (ExpectedType TInteger) TFloat path]
      | _ => PInvalid [invalid_type (ExpectedType TNumber) (getParsedType v) path]
      end
  | ZodEnum options =>
      match v with
      | VString x =>
          if bool_decide (x ∈ options) then PValid v
          else PInvalid [invalid_enum_value options x path]
      | _ => PInvalid [invalid_type (ExpectedOneOf options) (getParsedType v) path]
      end
  | ZodArray element =>
      match v with
      | VArray items =>
          let fix each (i : nat) (xs : list JsValue) : list ZodIssue * list JsValue :=
            match xs with
            | [] => ([], [])
            | x :: rest =>
                let '(issues, out) := each (S i) rest in
                match zparse element (path ++ [PIndex i]) x with
                | PValid y => (issues, y :: out)
                | PInvalid es => (es ++ issues, out)
                end
            end in
          match each 0%nat items with
          | ([], out) => PValid (VArray out)
          | (issues, _) => PInvalid issues
          end
      | _ => PInvalid [invalid_type (ExpectedType TArray) (getParsedType v) path]
      end
  | ZodObject shape =>
      match v with
      | VObject data =>
          let fix each (fields : list (string * Schema)) : list ZodIssue * gmap string JsValue :=
            match fields with
            | [] => ([], ∅)
            | (key, field) :: rest =>
                let '(issues, out) := each rest in
                match zparse field (path ++ [PKey key]) (access data key) with
                | PValid y => (issues, set_parsed data key y out)
                | PInvalid es => (es ++ issues, out)
                end
            end in
          match each shape with
          | ([], out) => PValid (VObject out)
          | (issues, _) => PInvalid issues
          end
      | _ => PInvalid [invalid_type (ExpectedType TObject) (getParsedType v) path]
      end
  | ZodOptional inner =>
      match v with
      | VUndefined => PValid VUndefined
      | _ => zparse inner path v
      end
  end.

(** The two inner loops of [zparse], named so that lemmas can talk
    about them. *)
Fixpoint parse_items (element : Schema) (path : list PathSeg) (i : nat)
    (xs : list JsValue) : list ZodIssue * list JsValue :=
  match xs with
  | [] => ([], [])
  | x :: rest =>
      let '(issues, out) := parse_items element path (S i) rest in
      match zparse element (path ++ [PIndex i]) x with
      | PValid y => (issues, y :: out)
      | PInvalid es => (es ++ issues, out)
      end
  end.

Fixpoint parse_fields (path : list PathSeg) (data : gmap string JsValue)
    (fields : list (string * Schema)) : list ZodIssue * gmap string JsValue :=
  match fields with
  | [] => ([], ∅)
  | (key, field) :: rest =>
      let '(issues, out) := parse_fields path data rest in
      match zparse field (path ++ [PKey key]) (access data key) with
      | PValid y => (issues, set_parsed data key y out)
      | PInvalid es => (es ++ issues, out)
      end
  end.

(** [schema.safeParse(v)]; [schema.parse(v)] under [errors.trySync] is
    the same [Result]. *)
Definition safeParse (s : Schema) (v : JsValue) : Result JsValue :=
  match zparse s [] v with
  | PValid data => Ok data
  | PInvalid issues => Throw (ErrZod issues)
  end.

End Zod.

(** The property names a [z.object] declares. *)
Definition declared (shape : list (string * Schema)) : list string := shape.*1.

(** A value carries no property beyond the ones its schema declares, at
    any depth. *)
Fixpoint no_undeclared (s : Schema) (v : JsValue) {struct s} : Prop :=
  match s, v with
  | ZodArray element, VArray items =>
      (fix all (xs : list JsValue) : Prop :=
         match xs with
         | [] => True
         | x :: rest => no_undeclared element x ∧ all rest
         end) items
  | ZodObject shape, VObject data =>
      (∀ key, key ∈ dom data → key ∈ declared shape) ∧
      (fix all (fields : list (string * Schema)) : Prop :=
         match fields with
         | [] => True
         | (key, field) :: rest => no_undeclared field (access data key) ∧ all rest
         end) shape
  | ZodOptional inner, _ => no_undeclared inner v
  | _, _ => True
  end.


(** ** Response schemas *)

Definition UploadFileResponseSchema : Schema :=
  ZodObject [("id", ZodString); ("bytes", ZodInt); ("created_at", ZodInt);
             ("filename", ZodString); ("purpose", ZodString)].

Definition GenerateLyricsResponseSchema : Schema :=
  ZodObject [("title", ZodString); ("lyrics", ZodString)].

Definition ExtendLyricsResponseSchema : Schema :=
  ZodObject [("lyrics", ZodString)].

Definition SongLyricsLineSchema : Schema :=
  ZodObject [("start", ZodInt); ("end", ZodInt); ("text", ZodString)].

Definition SongLyricsSectionSchema : Schema :=
  ZodObject [("section_type", ZodEnum SECTION_TYPES); ("start", ZodInt); ("end", ZodInt);
             ("lines", ZodArray SongLyricsLineSchema)].

Definition SongChoiceSchema : Schema :=
  ZodObject [("index", ZodInt); ("url", ZodString); ("flac_url", ZodString);
             ("duration", ZodInt); ("lyrics_sections", ZodArray SongLyricsSectionSchema)].

Definition GenerateSongResponseSchema : Schema :=
  ZodObject [("id", ZodString); ("created_at", ZodInt); ("finished_at", ZodInt);
             ("model", ZodString); ("status", ZodEnum TASK_STATUSES);
             ("failed_reason", ZodOptional ZodString);
             ("choices", ZodArray SongChoiceSchema)].

Definition QuerySongTaskResponseSchema : Schema :=
  ZodObject [("id", ZodString); ("created_at", ZodInt); ("finished_at", ZodInt);
             ("model", ZodString); ("status", ZodEnum TASK_STATUSES);
             ("failed_reason", ZodOptional ZodString);
             ("choices", ZodArray SongChoiceSchema)].

Definition StemSongResponseSchema : Schema :=
  ZodObject [("zip_url", ZodStringUrl); ("expires_at", ZodInt)].

Definition InstrumentalChoiceSchema : Schema :=
  ZodObject [("index", ZodInt); ("url", ZodString); ("flac_url", ZodString);
             ("duration", ZodInt)].

Definition GenerateInstrumentalResponseSchema : Schema :=
  ZodObject [("id", ZodString); ("created_at", ZodInt); ("finished_at", ZodInt);
             ("model", ZodString); ("status", ZodEnum TASK_STATUSES);
             ("failed_reason", ZodOptional ZodString);
             ("choices", ZodArray InstrumentalChoiceSchema)].

Definition QueryInstrumentalTaskResponseSchema : Schema :=
  ZodObject [("id", ZodString); ("created_at", ZodInt); ("finished_at", ZodInt);
             ("model", ZodString); ("status", ZodEnum TASK_STATUSES);
             ("failed_reason", ZodOptional ZodString);
             ("choices", ZodArray InstrumentalChoiceSchema)].

Definition CreateUploadResponseSchema : Schema :=
  ZodObject [("id", ZodString); ("upload_name", ZodString); ("purpose", ZodString);
             ("bytes", ZodInt); ("created_at", ZodInt); ("expires_at", ZodInt);
             ("status", ZodEnum UPLOAD_STATUSES); ("parts", ZodArray ZodString)].

Definition AddUploadPartResponseSchema : Schema :=
  ZodObject [("id", ZodString); ("upload_id", ZodString); ("created_at", ZodInt)].

Definition CompleteUploadResponseSchema : Schema :=
  ZodObject [("id", ZodString); ("upload_name", ZodString); ("purpose", ZodString);
             ("bytes", ZodInt); ("created_at", ZodInt); ("expires_at", ZodInt);
             ("status", ZodEnum UPLOAD_STATUSES); ("parts", ZodArray ZodString)].

Definition CreateFineTuningTaskResponseSchema : Schema :=
  ZodObject [("id", ZodString); ("upload_id", ZodString); ("model", ZodString);
             ("created_at", ZodInt); ("finished_at", ZodInt);
             ("status", ZodEnum TASK_STATUSES);
             ("failed_reason", ZodOptional ZodString);
             ("fine_tuned_model", ZodString)].

Definition QueryFineTuningTaskResponseSchema : Schema :=
  ZodObject [("id", ZodString); ("upload_id", ZodString); ("model", ZodString);
             ("created_at", ZodInt); ("finished_at", ZodInt);
             ("status", ZodEnum TASK_STATUSES);
             ("failed_reason", ZodOptional ZodString);
             ("fine_tuned_model", ZodString)].

Definition GenerateSpeechResponseSchema : Schema :=
  ZodObject [("url", ZodStringUrl); ("expires_at", ZodInt)].

Definition GeneratePodcastResponseSchema : Schema :=
  ZodObject [("url", ZodStringUrl); ("expires_at", ZodInt)].

Definition BillingInfoResponseSchema : Schema :=
  ZodObject [("account_id", ZodInt); ("balance", ZodInt); ("total_recharge", ZodInt);
             ("total_spending", ZodInt); ("concurrent_request_limit", ZodInt)].

Definition MurekaApiErrorEnvelopeSchema : Schema :=
  ZodObject [("error", ZodObject [("message", ZodString)])].

(** ** Endpoint inputs *)

(** A [File] handed to [FormData.append]. *)
Record File := { file_name : string; file_content : string }.

(** [Exclude<Purpose, "fine-tuning">]. *)
Inductive FilePurpose :=
| for_reference | for_vocal | for_melody | for_instrumental | for_voice.

Definition FilePurpose_purpose (p : FilePurpose) : Purpose :=
  match p with
  | for_reference => reference | for_vocal => vocal | for_melody => melody
  | for_instrumental => instrumental | for_voice => voice
  end.

(** [Exclude<Model, "mureka-5.5">]. *)
Inductive InstrumentalModel := instrumental_auto | instrumental_mureka_6.

Definition InstrumentalModel_model (m : InstrumentalModel) : Model :=
  match m with
  | instrumental_auto => auto_model
  | instrumental_mureka_6 => mureka_6
  end.

Record UploadFileInput := { uf_file : File; uf_purpose : FilePurpose }.
Record GenerateLyricsInput := { gl_prompt : string }.
Record ExtendLyricsInput := { el_lyrics : string }.
Record GenerateSongInput := {
  gs_lyrics : string;
  gs_model : Model;
  gs_prompt : option string;
  gs_reference_id : option string;
  gs_vocal_id : option string;
  gs_melody_id : option string
}.
Record QuerySongTaskInput := { qs_task_id : string }.
Record StemSongInput := { ss_url : string }.
Record GenerateInstrumentalInput := {
  gi_model : InstrumentalModel;
  gi_prompt : option string;
  gi_instrumental_id : option string
}.
Record QueryInstrumentalTaskInput := { qi_task_id : string }.
(** [purpose] has the one value ["fine-tuning"] and is not stored. *)
Record CreateUploadInput := { cu_upload_name : string; cu_bytes : option Number }.
Record AddUploadPartInput := { ap_file : File; ap_upload_id : string }.
Record CompleteUploadInput := { co_upload_id : string; co_part_ids : option (list string) }.
Record CreateFineTuningTaskInput := { cf_upload_id : string; cf_suffix : string }.
Record QueryFineTuningTaskInput := { qf_task_id : string }.
Record GenerateSpeechInput := {
  sp_text : string;
  sp_voice : option Voice;
  sp_voice_id : option string
}.
Record PodcastConversationItem := { pc_text : string; pc_voice : Voice }.
Record GeneratePodcastInput := { gp_conversations : list PodcastConversationItem }.

(** The JavaScript object each JSON-bodied input is, as [JSON.stringify]
    receives it. *)
Definition js_GenerateLyricsInput (i : GenerateLyricsInput) : JsValue :=
  object_of [("prompt", Some (VString (gl_prompt i)))].

Definition js_ExtendLyricsInput (i : ExtendLyricsInput) : JsValue :=
  object_of [("lyrics", Some (VString (el_lyrics i)))].

Definition js_GenerateSongInput (i : GenerateSongInput) : JsValue :=
  object_of [("lyrics", Some (VString (gs_lyrics i)));
             ("model", Some (VString (Model_name (gs_model i))));
             ("prompt", VString <$> gs_prompt i);
             ("reference_id", VString <$> gs_reference_id i);
             ("vocal_id", VString <$> gs_vocal_id i);
             ("melody_id", VString <$> gs_melody_id i)].

Definition js_StemSongInput (i : StemSongInput) : JsValue :=
  object_of [("url", Some (VString (ss_url i)))].

Definition js_GenerateInstrumentalInput (i : GenerateInstrumentalInput) : JsValue :=
  object_of [("model", Some (VString (Model_name (InstrumentalModel_model (gi_model i)))));
             ("prompt", VString <$> gi_prompt i);
             ("instrumental_id", VString <$> gi_instrumental_id i)].

Definition js_CreateUploadInput (i : CreateUploadInput) : JsValue :=
  object_of [("upload_name", Some (VString (cu_upload_name i)));
             ("purpose", Some (VString (Purpose_name fine_tuning)));
             ("bytes", VNumber <$> cu_bytes i)].

Definition js_CompleteUploadInput (i : CompleteUploadInput) : JsValue :=
  object_of [("upload_id", Some (VString (co_upload_id i)));
             ("part_ids", (λ ids, VArray (VString <$> ids)) <$> co_part_ids i)].

Definition js_CreateFineTuningTaskInput (i : CreateFineTuningTaskInput) : JsValue :=
  object_of [("upload_id", Some (VString (cf_upload_id i)));
             ("suffix", Some (VString (cf_suffix i)))].

Definition js_GenerateSpeechInput (i : GenerateSpeechInput) : JsValue :=
  object_of [("text", Some (VString (sp_text i)));
             ("voice", (λ v, VString (Voice_name v)) <$> sp_voice i);
             ("voice_id", VString <$> sp_voice_id i)].

Definition js_PodcastConversationItem (c : PodcastConversationItem) : JsValue :=
  object_of [("text", Some (VString (pc_text c)));
             ("voice", Some (VString (Voice_name (pc_voice c))))].

Definition js_GeneratePodcastInput (i : GeneratePodcastInput) : JsValue :=
  object_of [("conversations",
              Some (VArray (js_PodcastConversationItem <$> gp_conversations i)))].

(** ** HTTP requests and responses *)

Inductive Method := GET | POST.

Inductive FormValue :=
| FormString (s : string)
| FormFile (f : File).

(** A request body: a string, or a [FormData] with its entries in the
    order they were appended. *)
Inductive Body :=
| BodyText (s : string)
| BodyFormData (entries : list (string * FormValue)).

(** The [RequestInit] an endpoint passes to [request]; no endpoint sets
    [headers], which is then the empty map. *)
Record RequestInit := {
  init_method : Method;
  init_body : option Body;
  init_headers : gmap string string
}.

(** What [fetch] is called with. *)
Record Request := {
  req_url : string;
  req_method : Method;
  req_headers : gmap string string;
  req_body : option Body
}.

(** A [Response]: its status and what [response.text()] settles to. *)
Record Response := {
  status : Z;
  text : Result string
}.

(** [response.ok]: the status is in the range 200-299. *)
Definition ok (response : Response) : bool :=
  ((200 <=? status response) && (status response <=? 299))%Z.

(** The host environment. *)
Record Platform := {
  fetch : Request → Result Response;
  JSON_parse : string → Result JsValue;
  JSON_stringify : JsValue → string;
  toLowerCase : string → string;
  trim : string → string;
  URL_canParse : string → bool
}.

(** [response.json()]: the body text, parsed. *)
Definition json (P : Platform) (response : Response) : Result JsValue :=
  match text response with
  | Ok t => JSON_parse P t
  | Throw e => Throw e
  end.

(** What a call did: the requests handed to [fetch], and how the returned
    promise settled. *)
Record Outcome := {
  issued : list Request;
  result : Result JsValue
}.

(** [envelope.data.error.message] on a validated envelope; a read through
    a value that is not an object, or a message that is not a string,
    raises a [TypeError]. *)
Definition envelope_message (envelope : JsValue) : Result string :=
  match envelope with
  | VObject o =>
      match access o "error" with
      | VObject e =>
          match access e "message" with
          | VString message => Ok message
          | _ => Throw (ErrNative "TypeError" "message.toLowerCase is not a function")
          end
      | _ => Throw (ErrNative "TypeError" "cannot read properties of error")
      end
  | _ => Throw (ErrNative "TypeError" "cannot read properties of envelope")
  end.

Inductive Call :=
| CallUploadFile (input : UploadFileInput)
| CallGenerateLyrics (input : GenerateLyricsInput)
| CallExtendLyrics (input : ExtendLyricsInput)
| CallGenerateSong (input : GenerateSongInput)
| CallQuerySongTask (input : QuerySongTaskInput)
| CallStemSong (input : StemSongInput)
| CallGenerateInstrumental (input : GenerateInstrumentalInput)
| CallQueryInstrumentalTask (input : QueryInstrumentalTaskInput)
| CallCreateUpload (input : CreateUploadInput)
| CallAddUploadPart (input : AddUploadPartInput)
| CallCompleteUpload (input : CompleteUploadInput)
| CallCreateFineTuningTask (input : CreateFineTuningTaskInput)
| CallQueryFineTuningTask (input : QueryFineTuningTaskInput)
| CallGenerateSpeech (input : GenerateSpeechInput)
| CallGeneratePodcast (input : GeneratePodcastInput)
| CallGetBillingInfo.

(** ** The client *)

Record Client := {
  uploadFile : UploadFileInput → Outcome;
  generateLyrics : GenerateLyricsInput → Outcome;
  extendLyrics : ExtendLyricsInput → Outcome;
  generateSong : GenerateSongInput → Outcome;
  querySongTask : QuerySongTaskInput → Outcome;
  stemSong : StemSongInput → Outcome;
  generateInstrumental : GenerateInstrumentalInput → Outcome;
  queryInstrumentalTask : QueryInstrumentalTaskInput → Outcome;
  createUpload : CreateUploadInput → Outcome;
  addUploadPart : AddUploadPartInput → Outcome;
  completeUpload : CompleteUploadInput → Outcome;
  createFineTuningTask : CreateFineTuningTaskInput → Outcome;
  queryFineTuningTask : QueryFineTuningTaskInput → Outcome;
  generateSpeech : GenerateSpeechInput → Outcome;
  generatePodcast : GeneratePodcastInput → Outcome;
  getBillingInfo : Outcome
}.

(** [client.op(input)] for each of the sixteen operations. *)
Definition invoke (client : Client) (call : Call) : Outcome :=
  match call with
  | CallUploadFile input => uploadFile client input
  | CallGenerateLyrics input => generateLyrics client input
  | CallExtendLyrics input => extendLyrics client input
  | CallGenerateSong input => generateSong client input
  | CallQuerySongTask input => querySongTask client input
  | CallStemSong input => stemSong client input
  | CallGenerateInstrumental input => generateInstrumental client input
  | CallQueryInstrumentalTask input => queryInstrumentalTask client input
  | CallCreateUpload input => createUpload client input
  | CallAddUploadPart input => addUploadPart client input
  | CallCompleteUpload input => completeUpload client input
  | CallCreateFineTuningTask input => createFineTuningTask client input
  | CallQueryFineTuningTask input => queryFineTuningTask client input
  | CallGenerateSpeech input => generateSpeech client input
  | CallGeneratePodcast input => generatePodcast client input
  | CallGetBillingInfo => getBillingInfo client
  end.

Record ClientConfig := {
  apiKey : option string;
  apiBaseUrl : option string
}.

Section Closure.

(** The environment the functions inside [createClient] close over. *)
Variable P : Platform.
Variable apiKey' : string.
Variable apiBaseUrl' : string.

(** The request [fetch] receives: [options] with its headers replaced. *)
Definition fetch_request (endpoint : string) (options : RequestInit) : Request :=
  {| req_url := apiBaseUrl' +:+ endpoint;
     req_method := init_method options;
     req_headers :=
       <["Content-Type" := "application/json"]>
         (<["Authorization" := "Bearer " +:+ apiKey']> (init_headers options));
     req_body := init_body options |}.

(** What [request] does with the response once [fetch] has resolved. *)
Definition settle (response : Response) (responseSchema : Schema) : Result JsValue :=
  if negb (ok response) then
    match text response with
    | Throw e => Throw (ErrWrap e "unable to parse response body text")
    | Ok t =>
        match JSON_parse P t with
        | Throw e => Throw (ErrWrap e "unable to parse response body json")
        | Ok parsed =>
            match safeParse (URL_canParse P) MurekaApiErrorEnvelopeSchema parsed with
            | Throw e => Throw (ErrWrap e "unable to parse error envelope")
            | Ok envelope =>
                match STATUS_TO_ERROR !! status response with
                | Some error => Throw (ErrWrap error "error response")
                | None =>
                    match envelope_message envelope with
                    | Throw e => Throw e
                    | Ok m =>
                        let message := toLowerCase P m in
                        if (0 <? String.length (trim P message))%nat then
                          Throw (ErrNew ("(status: " +:+ pretty (status response)
                                         +:+ ") unknown error: " +:+ message))
                        else
                          Throw (ErrNew ("(status: " +:+ pretty (status response)
                                         +:+ ") unknown error"))
                    end
                end
            end
        end
    end
  else
    match json P response with
    | Throw e => Throw (ErrWrap e "mureka api success response parse")
    | Ok data =>
        match safeParse (URL_canParse P) responseSchema data with
        | Throw e => Throw (ErrWrap e "mureka api success response validation")
        | Ok validated => Ok validated
        end
    end.

Definition request (endpoint : string) (options : RequestInit) (responseSchema : Schema)
    : Outcome :=
  let req := fetch_request endpoint options in
  {| issued := [req];
     result :=
       match fetch P req with
       | Throw e => Throw (ErrWrap e "unable to fetch response")
       | Ok response => settle response responseSchema
       end |}.

Definition post_json (input : JsValue) : RequestInit :=
  {| init_method := POST;
     init_body := Some (BodyText (JSON_stringify P input));
     init_headers := ∅ |}.

Definition post_form (formData : list (string * FormValue)) : RequestInit :=
  {| init_method := POST; init_body := Some (BodyFormData formData); init_headers := ∅ |}.

Definition get : RequestInit :=
  {| init_method := GET; init_body := None; init_headers := ∅ |}.

Definition uploadFile' (input : UploadFileInput) : Outcome :=
  let formData :=
    [("file", FormFile (uf_file input));
     ("purpose", FormString (Purpose_name (FilePurpose_purpose (uf_purpose input))))] in
  request "/v1/files/upload" (post_form formData) UploadFileResponseSchema.

Definition generateLyrics' (input : GenerateLyricsInput) : Outcome :=
  request "/v1/lyrics/generate" (post_json (js_GenerateLyricsInput input))
    GenerateLyricsResponseSchema.

Definition extendLyrics' (input : ExtendLyricsInput) : Outcome :=
  request "/v1/lyrics/extend" (post_json (js_ExtendLyricsInput input))
    ExtendLyricsResponseSchema.

Definition generateSong' (input : GenerateSongInput) : Outcome :=
  request "/v1/song/generate" (post_json (js_GenerateSongInput input))
    GenerateSongResponseSchema.

Definition querySongTask' (input : QuerySongTaskInput) : Outcome :=
  request ("/v1/song/query/" +:+ qs_task_id input) get QuerySongTaskResponseSchema.

Definition stemSong' (input : StemSongInput) : Outcome :=
  request "/v1/song/stem" (post_json (js_StemSongInput input)) StemSongResponseSchema.

Definition generateInstrumental' (input : GenerateInstrumentalInput) : Outcome :=
  match gi_prompt input, gi_instrumental_id input with
  | None, None =>
      {| issued := [];
         result := Throw (ErrNew "exactly one of prompt or instrumental_id must be provided") |}
  | _, _ =>
      request "/v1/instrumental/generate" (post_json (js_GenerateInstrumentalInput input))
        GenerateInstrumentalResponseSchema
  end.

Definition queryInstrumentalTask' (input : QueryInstrumentalTaskInput) : Outcome :=
  request ("/v1/instrumental/query/" +:+ qi_task_id input) get
    QueryInstrumentalTaskResponseSchema.

Definition createUpload' (input : CreateUploadInput) : Outcome :=
  request "/v1/uploads/create" (post_json (js_CreateUploadInput input))
    CreateUploadResponseSchema.

Definition addUploadPart' (input : AddUploadPartInput) : Outcome :=
  let formData :=
    [("upload_id", FormString (ap_upload_id input)); ("file", FormFile (ap_file input))] in
  request "/v1/uploads/add" (post_form formData) AddUploadPartResponseSchema.

Definition completeUpload' (input : CompleteUploadInput) : Outcome :=
  request "/v1/uploads/complete" (post_json (js_CompleteUploadInput input))
    CompleteUploadResponseSchema.

Definition createFineTuningTask' (input : CreateFineTuningTaskInput) : Outcome :=
  request "/v1/finetuning/create" (post_json (js_CreateFineTuningTaskInput input))
    CreateFineTuningTaskResponseSchema.

Definition queryFineTuningTask' (input : QueryFineTuningTaskInput) : Outcome :=
  request ("/v1/finetuning/query/" +:+ qf_task_id input) get
    QueryFineTuningTaskResponseSchema.

Definition generateSpeech' (input : GenerateSpeechInput) : Outcome :=
  request "/v1/tts/generate" (post_json (js_GenerateSpeechInput input))
    GenerateSpeechResponseSchema.

Definition generatePodcast' (input : GeneratePodcastInput) : Outcome :=
  request "/v1/tts/podcast" (post_json (js_GeneratePodcastInput input))
    GeneratePodcastResponseSchema.

Definition getBillingInfo' : Outcome :=
  request "/v1/account/billing" get BillingInfoResponseSchema.

(** The object [createClient] returns. *)
Definition client_object : Client :=
  {| uploadFile := uploadFile';
     generateLyrics := generateLyrics';
     extendLyrics := extendLyrics';
     generateSong := generateSong';
     querySongTask := querySongTask';
     stemSong := stemSong';
     generateInstrumental := generateInstrumental';
     queryInstrumentalTask := queryInstrumentalTask';
     createUpload := createUpload';
     addUploadPart := addUploadPart';
     completeUpload := completeUpload';
     createFineTuningTask := createFineTuningTask';
     queryFineTuningTask := queryFineTuningTask';
     generateSpeech := generateSpeech';
     generatePodcast := generatePodcast';
     getBillingInfo := getBillingInfo' |}.

End Closure.

(** [createClient(config)]: throws when [config.apiKey] is [undefined] or
    [null] (here [None]); otherwise fixes the key and the base URL and
    returns the sixteen functions closed over them. *)
Definition createClient (P : Platform) (config : ClientConfig) : Result Client :=
  match apiKey config with
  | None => Throw (ErrNew "mureka api key required")
  | Some key =>
      let base := default MUREKA_API_BASE_URL (apiBaseUrl config) in
      Ok (client_object P key base)
  end.

(** ** The error taxonomy of the specification

    The specification names the failures of the pipeline; each name stands
    for the error value the source builds at that point. *)

Definition TransportError (cause : Error) : Error :=
  ErrWrap cause "unable to fetch response".
Definition BodyReadError (cause : Error) : Error :=
  ErrWrap cause "unable to parse response body text".
Definition BodyParseError (cause : Error) : Error :=
  ErrWrap cause "unable to parse response body json".
Definition EnvelopeParseError (cause : Error) : Error :=
  ErrWrap cause "unable to parse error envelope".
Definition ApiError (kind : Error) : Error :=
  ErrWrap kind "error response".
Definition UnknownStatusError (status : Z) (message : option string) : Error :=
  match message with
  | Some m => ErrNew ("(status: " +:+ pretty status +:+ ") unknown error: " +:+ m)
  | None => ErrNew ("(status: " +:+ pretty status +:+ ") unknown error")
  end.
Definition SuccessBodyParseError (cause : Error) : Error :=
  ErrWrap cause "mureka api success response parse".
Definition ResponseShapeError (diagnostic : list ZodIssue) : Error :=
  ErrWrap (ErrZod diagnostic) "mureka api success response validation".
Definition PreconditionError : Error :=
  ErrNew "exactly one of prompt or instrumental_id must be provided".
Definition MissingCredentialError : Error :=
  ErrNew "mureka api key required".

(** The status-to-error-kind table as the specification lists it. *)
Definition ApiErrorKinds : list (Z * Error) :=
  [(400, ErrInvalidRequest); (401, ErrInvalidAuthentication); (403, ErrForbidden);
   (429, ErrRateLimitOrQuotaExceeded); (500, ErrServerError); (503, ErrEngineOverloaded)].

(** The error envelope of the specification: [{ error: { message } }]
    with a string message. *)
Definition envelope_shaped (v : JsValue) (message : string) : Prop :=
  ∃ o e, v = VObject o ∧ o !! "error" = Some (VObject e) ∧
         e !! "message" = Some (VString message).

(** The response body reads as text and parses to [parsed]. *)
Definition body_parses (P : Platform) (response : Response) (parsed : JsValue) : Prop :=
  ∃ t, text response = Ok t ∧ JSON_parse P t = Ok parsed.

Definition is_optional (s : Schema) : bool :=
  match s with
  | ZodOptional _ => true
  | _ => false
  end.

(** ** A host for running the client on concrete inputs *)

Definition lower_ascii (c : ascii) : ascii :=
  let n := nat_of_ascii c in
  if ((65 <=? n) && (n <=? 90))%nat then ascii_of_nat (n + 32) else c.

(** [toLowerCase] on a string of ASCII characters. *)
Fixpoint ascii_toLowerCase (s : string) : string :=
  match s with
  | EmptyString => EmptyString
  | String c rest => String (lower_ascii c) (ascii_toLowerCase rest)
  end.

(** Tab, line feed, vertical tab, form feed, carriage return, space. *)
Definition is_space (c : ascii) : bool :=
  let n := nat_of_ascii c in
  (((9 <=? n) && (n <=? 13)) || (n =? 32))%nat.

Fixpoint trim_start (s : string) : string :=
  match s with
  | EmptyString => EmptyString
  | String c rest => if is_space c then trim_start rest else s
  end.

Fixpoint trim_end (s : string) : string :=
  match s with
  | EmptyString => EmptyString
  | String c rest =>
      match trim_end rest with
      | EmptyString => if is_space c then EmptyString else String c EmptyString
      | kept => String c kept
      end
  end.

(** [trim] on a string of ASCII characters. *)
Definition ascii_trim (s : string) : string := trim_end (trim_start s).

(** A host whose [fetch] resolves to one canned response and whose
    [JSON.parse] yields one canned outcome on the text of that response, in
    the manner of a test that mocks [fetch]. The body text of a canned
    response is a label for the text the provider sent. *)
Definition canned_host (response : Response) (parsed : Result JsValue) : Platform :=
  {| fetch := λ _, Ok response;
     JSON_parse := λ t,
       match text response with
       | Ok body => if String.eqb t body then parsed
                    else Throw (ErrNative "SyntaxError" "unexpected token")
       | Throw _ => Throw (ErrNative "SyntaxError" "unexpected token")
       end;
     JSON_stringify := λ _, "{...}";
     toLowerCase := ascii_toLowerCase;
     trim := ascii_trim;
     URL_canParse := λ url, String.prefix "https://" url |}.

(** A host whose network is down. *)
Definition offline_host : Platform :=
  {| fetch := λ _, Throw (ErrNative "TypeError" "fetch failed");
     JSON_parse := λ _, Throw (ErrNative "SyntaxError" "unexpected token");
     JSON_stringify := λ _, "{...}";
     toLowerCase := ascii_toLowerCase;
     trim := ascii_trim;
     URL_canParse := λ url, String.prefix "https://" url |}.

Definition envelope_of (message : string) : JsValue :=
  VObject {[ "error" := VObject {[ "message" := VString message ]} ]}.

(** [Response] values for the examples. *)
Definition text_response (code : Z) (body : string) : Response :=
  {| status := code; text := Ok body |}.

Definition unreadable_response (code : Z) : Response :=
  {| status := code; text := Throw (ErrNative "TypeError" "body stream already read") |}.

(** A [querySongTask] success body with exactly the declared properties:
    status [succeeded] and one choice. *)
Definition song_line : JsValue :=
  VObject {[ "start" := int_value 0; "end" := int_value 1800;
             "text" := VString "hello" ]}.

Definition song_section : JsValue :=
  VObject {[ "section_type" := VString "verse"; "start" := int_value 0;
             "end" := int_value 1800; "lines" := VArray [song_line] ]}.

Definition song_choice : JsValue :=
  VObject {[ "index" := int_value 0;
             "url" := VString "https://cdn.mureka.ai/song.mp3";
             "flac_url" := VString "https://cdn.mureka.ai/song.flac";
             "duration" := int_value 1800;
             "lyrics_sections" := VArray [song_section] ]}.

Definition song_task_fields : gmap string JsValue :=
  {[ "id" := VString "task-1"; "created_at" := int_value 1700000000;
     "finished_at" := int_value 1700000060; "model" := VString "mureka-6";
     "status" := VString "succeeded"; "choices" := VArray [song_choice] ]}.

Definition song_task_body : JsValue := VObject song_task_fields.

(** The same body as the provider may send it, with a property the schema
    does not declare. *)
Definition song_task_body_traced : JsValue :=
  VObject (<["trace_id" := VString "abc"]> song_task_fields).

(** A song-generation body that lacks the required [id]. *)
Definition song_task_body_without_id : JsValue :=
  VObject (delete "id" song_task_fields).

Definition sample_file : File :=
  {| file_name := "voice.mp3"; file_content := "ID3" |}.

Definition sample_song_input : GenerateSongInput :=
  {| gs_lyrics := "la la la"; gs_model := auto_model; gs_prompt := Some "pop";
     gs_reference_id := None; gs_vocal_id := None; gs_melody_id := None |}.

(** A file-upload success body with exactly the declared properties. *)
Definition upload_file_fields : gmap string JsValue :=
  {[ "id" := VString "file-1"; "bytes" := int_value 2048;
     "created_at" := int_value 1700000000; "filename" := VString "voice.mp3";
     "purpose" := VString "voice" ]}.

Definition upload_form : list (string * FormValue) :=
  [("file", FormFile sample_file); ("purpose", FormString "voice")].

(** The sixteen response schemas. *)
Definition ResponseSchemas : list Schema :=
  [UploadFileResponseSchema; GenerateLyricsResponseSchema; ExtendLyricsResponseSchema;
   GenerateSongResponseSchema; QuerySongTaskResponseSchema; StemSongResponseSchema;
   GenerateInstrumentalResponseSchema; QueryInstrumentalTaskResponseSchema;
   CreateUploadResponseSchema; AddUploadPartResponseSchema; CompleteUploadResponseSchema;
   CreateFineTuningTaskResponseSchema; QueryFineTuningTaskResponseSchema;
   GenerateSpeechResponseSchema; GeneratePodcastResponseSchema; BillingInfoResponseSchema].

(** Every [z.object] of the schema, at any depth, declares each property
    once, as an object literal does. *)
Fixpoint distinct_keys (s : Schema) : Prop :=
  match s with
  | ZodArray element => distinct_keys element
  | ZodObject shape =>
      NoDup (declared shape) ∧
      (fix all (fields : list (string * Schema)) : Prop :=
         match fields with
         | [] => True
         | (_, field) :: rest => distinct_keys field ∧ all rest
         end) shape
  | ZodOptional inner => distinct_keys inner
  | _ => True
  end.

(** The failures [request] can end in: the taxonomy above, with a
    classified error always one of the table and a validation failure
    always carrying at least one issue. *)
Definition in_taxonomy (e : Error) : Prop :=
  (∃ cause, e = TransportError cause) ∨
  (∃ cause, e = BodyReadError cause) ∨
  (∃ cause, e = BodyParseError cause) ∨
  (∃ issues, issues ≠ [] ∧ e = EnvelopeParseError (ErrZod issues)) ∨
  (∃ code kind, (code, kind) ∈ ApiErrorKinds ∧ e = ApiError kind) ∨
  (∃ code message, e = UnknownStatusError code message) ∨
  (∃ cause, e = SuccessBodyParseError cause) ∨
  (∃ issues, issues ≠ [] ∧ e = ResponseShapeError issues).

(** The text of the innermost error of a chain of [errors.wrap]. *)
Fixpoint root_message (e : Error) : option string :=
  match e with
  | ErrNew msg => Some msg
  | ErrWrap cause _ => root_message cause
  | ErrNative _ _ | ErrZod _ => None
  end.

(** The body of a request is a [FormData]. *)
Definition is_form_body (body : option Body) : bool :=
  match body with
  | Some (BodyFormData _) => true
  | _ => false
  end.

(** The operation sends a file. *)
Definition is_upload_call (call : Call) : bool :=
  match call with
  | CallUploadFile _ | CallAddUploadPart _ => true
  | _ => false
  end.

(** A billing success body, and a song task body with two choices. *)
Definition billing_fields : gmap string JsValue :=
  {[ "account_id" := int_value 7; "balance" := int_value 1200;
     "total_recharge" := int_value 5000; "total_spending" := int_value 3800;
     "concurrent_request_limit" := int_value 2 ]}.

Definition song_task_two_choices : gmap string JsValue :=
  <["choices" := VArray [song_choice; song_choice]]> song_task_fields.

(** Closes [distinct_keys] on a concrete schema. *)
Ltac solve_distinct_keys :=
  vm_compute; repeat split; apply (bool_decide_unpack _); vm_compute; exact I.

(** * Properties *)

(** ** Running the model *)

Example ascii_toLowerCase_ex : ascii_toLowerCase " Not Found " = " not found ".
Proof. reflexivity. Qed.

Example ascii_trim_ex : ascii_trim "  not found  " = "not found".
Proof. reflexivity. Qed.

Example ascii_trim_blank : ascii_trim "   " = "".
Proof. reflexivity. Qed.

Example pretty_status_ex : pretty (404 : Z) = "404".
Proof. reflexivity. Qed.

Example envelope_parse_ex :
  safeParse (λ _, true) MurekaApiErrorEnvelopeSchema
    (VObject {[ "error" := VObject {[ "message" := VString "x"; "code" := int_value 7 ]};
                "trace" := VNull ]})
  = Ok (envelope_of "x").
Proof. vm_compute. reflexivity. Qed.

Example envelope_reject_ex :
  safeParse (λ _, true) MurekaApiErrorEnvelopeSchema
    (VObject {[ "error" := VString "boom" ]})
  = Throw (ErrZod [invalid_type (ExpectedType TObject) TString [PKey "error"]]).
Proof. vm_compute. reflexivity. Qed.

Example song_task_body_valid :
  safeParse (λ _, true) QuerySongTaskResponseSchema song_task_body = Ok song_task_body.
Proof. vm_compute. reflexivity. Qed.

Example song_task_body_traced_stripped :
  safeParse (λ _, true) QuerySongTaskResponseSchema song_task_body_traced = Ok song_task_body.
Proof. vm_compute. reflexivity. Qed.

Example song_task_body_without_id_rejected :
  safeParse (λ _, true) GenerateSongResponseSchema song_task_body_without_id
  = Throw (ErrZod [invalid_type (ExpectedType TString) TUndefined [PKey "id"]]).
Proof. vm_compute. reflexivity. Qed.

Example not_found_ex :
  result (querySongTask'
            (canned_host (text_response 404 "{...}") (Ok (envelope_of "Not Found")))
            "k" MUREKA_API_BASE_URL {| qs_task_id := "task-1" |})
  = Throw (ErrNew "(status: 404) unknown error: not found").
Proof. vm_compute. reflexivity. Qed.

(** ** Validation *)

(** Induction over schemas that reaches the property schemas of an
    object. *)
Lemma Schema_nested_ind (Q : Schema → Prop) :
  Q ZodString → Q ZodStringUrl → Q ZodInt → (∀ options, Q (ZodEnum options)) →
  (∀ element, Q element → Q (ZodArray element)) →
  (∀ shape, Forall (λ kf, Q kf.2) shape → Q (ZodObject shape)) →
  (∀ inner, Q inner → Q (ZodOptional inner)) →
  ∀ s, Q s.
Proof.
  intros HS HU HI HE HA HO HP.
  exact (fix go (s : Schema) : Q s :=
    match s with
    | ZodString => HS
    | ZodStringUrl => HU
    | ZodInt => HI
    | ZodEnum options => HE options
    | ZodArray element => HA element (go element)
    | ZodObject shape =>
        HO shape ((fix all (fields : list (string * Schema)) : Forall (λ kf, Q kf.2) fields :=
                     match fields with
                     | [] => List.Forall_nil _
                     | kf :: rest => List.Forall_cons _ kf rest (go kf.2) (all rest)
                     end) shape)
    | ZodOptional inner => HP inner (go inner)
    end).
Qed.

Section ZodFacts.

Variable canParseURL : string → bool.

Local Abbreviation zparse := (zparse canParseURL).
Local Abbreviation parse_items := (parse_items canParseURL).
Local Abbreviation parse_fields := (parse_fields canParseURL).
Local Abbreviation safeParse := (safeParse canParseURL).

Lemma zparse_array element path items :
  zparse (ZodArray element) path (VArray items) =
  match parse_items element path 0%nat items with
  | ([], out) => PValid (VArray out)
  | (issues, _) => PInvalid issues
  end.
Proof.
  simpl.
  match goal with
  | |- context [?f 0%nat items] =>
      assert (Hf : ∀ xs i, f i xs = parse_items element path i xs)
  end.
  { induction xs as [|x rest IH]; intros i; simpl; [done|]. by rewrite IH. }
  by rewrite Hf.
Qed.

Lemma zparse_object shape path data :
  zparse (ZodObject shape) path (VObject data) =
  match parse_fields path data shape with
  | ([], out) => PValid (VObject out)
  | (issues, _) => PInvalid issues
  end.
Proof.
  simpl.
  match goal with
  | |- context [?f shape] =>
      assert (Hf : ∀ fields, f fields = parse_fields path data fields)
  end.
  { induction fields as [|[key field] rest IH]; simpl; [done|]. by rewrite IH. }
  by rewrite Hf.
Qed.

Lemma zparse_optional inner path v :
  zparse (ZodOptional inner) path v =
  match v with VUndefined => PValid VUndefined | _ => zparse inner path v end.
Proof. done. Qed.

Lemma parse_fields_cons path data key field rest :
  parse_fields path data ((key, field) :: rest) =
  let '(issues, out) := parse_fields path data rest in
  match zparse field (path ++ [PKey key]) (access data key) with
  | PValid y => (issues, set_parsed data key y out)
  | PInvalid es => (es ++ issues, out)
  end.
Proof. done. Qed.

Lemma parse_items_cons element path i x rest :
  parse_items element path i (x :: rest) =
  let '(issues, out) := parse_items element path (S i) rest in
  match zparse element (path ++ [PIndex i]) x with
  | PValid y => (issues, y :: out)
  | PInvalid es => (es ++ issues, out)
  end.
Proof. done. Qed.

Lemma no_undeclared_array element items :
  no_undeclared (ZodArray element) (VArray items) ↔ Forall (no_undeclared element) items.
Proof.
  simpl. induction items as [|x rest IH]; [by split; [constructor|]|].
  rewrite Forall_cons. by rewrite IH.
Qed.

Lemma no_undeclared_object shape data :
  no_undeclared (ZodObject shape) (VObject data) ↔
  (∀ key, key ∈ dom data → key ∈ declared shape) ∧
  Forall (λ kf, no_undeclared kf.2 (access data kf.1)) shape.
Proof.
  simpl. apply and_iff_compat_l.
  induction shape as [|[key field] rest IH]; [by split; [constructor|]|].
  rewrite Forall_cons. by rewrite IH.
Qed.

Lemma distinct_keys_object shape :
  distinct_keys (ZodObject shape) ↔
  NoDup (declared shape) ∧ Forall (λ kf, distinct_keys kf.2) shape.
Proof.
  simpl. apply and_iff_compat_l.
  induction shape as [|[key field] rest IH]; [by split; [constructor|]|].
  rewrite Forall_cons. by rewrite IH.
Qed.

(** A rejected value comes with at least one issue. *)
Lemma zparse_issues_nonempty s : ∀ path v issues,
  zparse s path v = PInvalid issues → issues ≠ [].
Proof.
  induction s as [ | | | options | element IH | shape IH | inner IH ]
    using Schema_nested_ind; intros path v issues.
  - destruct v; simpl; congruence.
  - destruct v; simpl; try congruence. destruct (canParseURL s); congruence.
  - destruct v; simpl; try congruence. destruct (isInteger n); congruence.
  - destruct v; simpl; try congruence. case_bool_decide; congruence.
  - destruct v; try (simpl; congruence).
    rewrite zparse_array.
    destruct (parse_items element path 0 items) as [[|e es] out]; congruence.
  - destruct v; try (simpl; congruence).
    rewrite zparse_object.
    destruct (parse_fields path fields shape) as [[|e es] out]; congruence.
  - rewrite zparse_optional. destruct v; try apply IH. congruence.
Qed.

(** A schema that is not optional never yields [undefined]. *)
Lemma zparse_defined s path v y :
  is_optional s = false → zparse s path v = PValid y → y ≠ VUndefined.
Proof.
  destruct s; intros Hopt; try discriminate Hopt.
  - destruct v; simpl; congruence.
  - destruct v; simpl; try congruence. destruct (canParseURL s); congruence.
  - destruct v; simpl; try congruence. destruct (isInteger n); congruence.
  - destruct v; simpl; try congruence. case_bool_decide; congruence.
  - destruct v; try (simpl; congruence).
    rewrite zparse_array.
    destruct (parse_items s path 0 items) as [[|e es] out]; congruence.
  - destruct v; try (simpl; congruence).
    rewrite zparse_object.
    destruct (parse_fields path fields shape) as [[|e es] out]; congruence.
Qed.

Lemma set_parsed_lookup data key y out k :
  set_parsed data key y out !! k =
  if decide (key = k) then
    match y with
    | VUndefined => if bool_decide (key ∈ dom data) then Some VUndefined else out !! k
    | _ => Some y
    end
  else out !! k.
Proof.
  unfold set_parsed. destruct (decide (key = k)) as [->|Hne].
  - destruct y; try apply lookup_insert_eq.
    case_bool_decide; [apply lookup_insert_eq | done].
  - destruct y; try by apply lookup_insert_ne.
    case_bool_decide; [by apply lookup_insert_ne | done].
Qed.

Lemma set_parsed_dom data key y out k :
  k ∈ dom (set_parsed data key y out) → k = key ∨ k ∈ dom out.
Proof.
  rewrite !elem_of_dom, set_parsed_lookup.
  destruct (decide (key = k)) as [->|Hne]; auto.
Qed.

Lemma set_parsed_dom_mono data key y out k :
  k ∈ dom out → k ∈ dom (set_parsed data key y out).
Proof.
  rewrite !elem_of_dom, set_parsed_lookup. intros Hk.
  destruct (decide (key = k)) as [->|Hne]; [|done].
  destruct y; try done. by case_bool_decide.
Qed.

(** The output of an object schema has no property the schema does not
    declare. *)
Lemma parse_fields_dom path data fields issues out :
  parse_fields path data fields = (issues, out) →
  ∀ k, k ∈ dom out → k ∈ declared fields.
Proof.
  revert issues out.
  induction fields as [|[key field] rest IH]; intros issues out.
  - simpl. intros [= <- <-] k. by rewrite dom_empty_L.
  - rewrite parse_fields_cons.
    destruct (parse_fields path data rest) as [is' out'] eqn:Hrest.
    destruct (zparse field (path ++ [PKey key]) (access data key)) as [y|es];
      intros [= <- <-] k Hk; unfold declared; rewrite fmap_cons; simpl.
    + apply set_parsed_dom in Hk as [->|Hk]; [left|right; by eapply IH].
    + right. by eapply IH.
Qed.

(** Every declared property that is not optional is in the output. *)
Lemma parse_fields_required path data fields out :
  parse_fields path data fields = ([], out) →
  ∀ key field, (key, field) ∈ fields → is_optional field = false → key ∈ dom out.
Proof.
  revert out.
  induction fields as [|[key' field'] rest IH]; intros out.
  - intros _ key field Hin. by apply elem_of_nil in Hin.
  - rewrite parse_fields_cons.
    destruct (parse_fields path data rest) as [is' out'] eqn:Hrest.
    destruct (zparse field' (path ++ [PKey key']) (access data key')) as [y|es] eqn:Hy.
    + intros [= -> <-] key field Hin Hopt.
      apply elem_of_cons in Hin as [[= -> ->]|Hin].
      * apply elem_of_dom. rewrite set_parsed_lookup, decide_True by done.
        pose proof (zparse_defined _ _ _ _ Hopt Hy). by destruct y.
      * apply set_parsed_dom_mono. by eapply IH.
    + intros [= Hnil <-]. apply app_eq_nil in Hnil as [-> _].
      by apply zparse_issues_nonempty in Hy.
Qed.

(** Validation reads the declared properties only. *)
Lemma parse_fields_agree path data data' fields :
  (∀ k, k ∈ declared fields → data' !! k = data !! k) →
  parse_fields path data' fields = parse_fields path data fields.
Proof.
  induction fields as [|[key field] rest IH]; intros Hagree; [done|].
  rewrite !parse_fields_cons, IH.
  2:{ intros k Hk. apply Hagree. unfold declared. rewrite fmap_cons. by right. }
  assert (Hkey : data' !! key = data !! key).
  { apply Hagree. unfold declared. rewrite fmap_cons. by left. }
  unfold access. rewrite Hkey.
  destruct (parse_fields path data rest) as [is' out'].
  destruct (zparse field _ _) as [y|es]; [|done].
  f_equal. unfold set_parsed. destruct y; try done.
  assert (key ∈ dom data' ↔ key ∈ dom data) as Hdom
    by (by rewrite !elem_of_dom, Hkey).
  by repeat case_bool_decide; tauto.
Qed.

Lemma no_undeclared_optional inner v :
  no_undeclared (ZodOptional inner) v = no_undeclared inner v.
Proof. by destruct v. Qed.

Lemma no_undeclared_undefined s : no_undeclared s VUndefined.
Proof. induction s; simpl; auto. Qed.

Lemma parse_items_exact element path :
  (∀ path v v', zparse element path v = PValid v' → no_undeclared element v → v' = v) →
  ∀ items i out,
    parse_items element path i items = ([], out) →
    Forall (no_undeclared element) items → out = items.
Proof.
  intros IH. induction items as [|x rest IHrest]; intros i out.
  - simpl. by intros [= <-].
  - rewrite parse_items_cons, Forall_cons.
    destruct (parse_items element path (S i) rest) as [is' out'] eqn:Hrest.
    destruct (zparse element (path ++ [PIndex i]) x) as [y|es] eqn:Hy.
    + intros [= -> <-] [Hx Hall]. f_equal; [by eapply IH | by eapply IHrest].
    + intros [= Hnil <-]. apply app_eq_nil in Hnil as [-> _].
      by apply zparse_issues_nonempty in Hy.
Qed.

Lemma parse_fields_exact path data fields :
  Forall (λ kf, ∀ path v v',
            zparse kf.2 path v = PValid v' → no_undeclared kf.2 v → v' = v) fields →
  ∀ out,
    parse_fields path data fields = ([], out) →
    Forall (λ kf, no_undeclared kf.2 (access data kf.1)) fields →
    ∀ k, out !! k = if decide (k ∈ declared fields) then data !! k else None.
Proof.
  induction fields as [|[key field] rest IHrest]; intros IH out.
  - simpl. intros [= <-] _ k. by rewrite lookup_empty.
  - apply Forall_cons in IH as [IHfield IH].
    rewrite parse_fields_cons, Forall_cons.
    destruct (parse_fields path data rest) as [is' out'] eqn:Hrest.
    destruct (zparse field (path ++ [PKey key]) (access data key)) as [y|es] eqn:Hy.
    2:{ intros [= Hnil <-]. apply app_eq_nil in Hnil as [-> _].
        by apply zparse_issues_nonempty in Hy. }
    intros [= -> <-] [Hfield Hall] k.
    apply IHfield in Hy; [|done]. simpl in Hy. subst y.
    specialize (IHrest IH out' eq_refl Hall k).
    rewrite set_parsed_lookup. unfold declared in *. rewrite fmap_cons. simpl.
    destruct (decide (key = k)) as [->|Hne].
    + rewrite decide_True by (by left).
      unfold access. destruct (data !! k) as [x|] eqn:Hk; simpl.
      * destruct x; try done.
        by rewrite bool_decide_eq_true_2 by (apply elem_of_dom; eauto).
      * rewrite bool_decide_eq_false_2 by (rewrite elem_of_dom, Hk; by intros [? ?]).
        rewrite IHrest. by case_decide.
    + rewrite IHrest. destruct (decide (k ∈ rest.*1)) as [Hin|Hnin].
      * by rewrite decide_True by (by right).
      * rewrite decide_False; [done|]. intros [->|?]%elem_of_cons; done.
Qed.

(** A value with no undeclared property at any depth is returned as it
    is. *)
Lemma zparse_exact s : ∀ path v v',
  zparse s path v = PValid v' → no_undeclared s v → v' = v.
Proof.
  induction s as [ | | | options | element IH | shape IH | inner IH ]
    using Schema_nested_ind; intros path v v'.
  - destruct v; simpl; congruence.
  - destruct v; simpl; try congruence. destruct (canParseURL s); congruence.
  - destruct v; simpl; try congruence. destruct (isInteger n); congruence.
  - destruct v; simpl; try congruence. case_bool_decide; congruence.
  - destruct v; try (simpl; congruence).
    rewrite zparse_array, no_undeclared_array.
    destruct (parse_items element path 0 items) as [[|e es] out] eqn:Hitems; [|done].
    intros [= <-] Hall. f_equal. by eapply parse_items_exact.
  - destruct v; try (simpl; congruence).
    rewrite zparse_object, no_undeclared_object.
    destruct (parse_fields path fields shape) as [[|e es] out] eqn:Hfields; [|done].
    intros [= <-] [Hdom Hall]. f_equal. apply map_eq. intros k.
    rewrite (parse_fields_exact _ _ _ IH _ Hfields Hall k).
    destruct (decide (k ∈ declared shape)) as [|Hnin]; [done|].
    symmetry. apply not_elem_of_dom. intros Hk. by apply Hnin, Hdom.
  - rewrite zparse_optional, no_undeclared_optional.
    destruct v; try apply IH. congruence.
Qed.

Lemma parse_items_declared element path :
  (∀ path v v', zparse element path v = PValid v' → no_undeclared element v') →
  ∀ items i out,
    parse_items element path i items = ([], out) →
    Forall (no_undeclared element) out.
Proof.
  intros IH. induction items as [|x rest IHrest]; intros i out.
  - simpl. intros [= <-]. constructor.
  - rewrite parse_items_cons.
    destruct (parse_items element path (S i) rest) as [is' out'] eqn:Hrest.
    destruct (zparse element (path ++ [PIndex i]) x) as [y|es] eqn:Hy.
    + intros [= -> <-]. constructor; [by eapply IH | by eapply IHrest].
    + intros [= Hnil <-]. apply app_eq_nil in Hnil as [-> _].
      by apply zparse_issues_nonempty in Hy.
Qed.

(** With distinct keys, the output property [key] is what the schema of
    [key] made of the input property. *)
Lemma parse_fields_access path data fields :
  NoDup (declared fields) →
  ∀ out,
    parse_fields path data fields = ([], out) →
    Forall (λ kf, zparse kf.2 (path ++ [PKey kf.1]) (access data kf.1)
                  = PValid (access out kf.1)) fields.
Proof.
  unfold declared.
  induction fields as [|[key field] rest IHrest]; intros Hnodup out; [constructor|].
  rewrite fmap_cons in Hnodup. apply NoDup_cons in Hnodup as [Hfresh Hnodup].
  rewrite parse_fields_cons.
  destruct (parse_fields path data rest) as [is' out'] eqn:Hrest.
  destruct (zparse field (path ++ [PKey key]) (access data key)) as [y|es] eqn:Hy.
  2:{ intros [= Hnil <-]. apply app_eq_nil in Hnil as [-> _].
      by apply zparse_issues_nonempty in Hy. }
  intros [= -> <-]. constructor; simpl.
  - rewrite Hy. f_equal. unfold access.
    rewrite set_parsed_lookup, decide_True by done.
    destruct y; try done. case_bool_decide; [done|].
    assert (out' !! key = None) as ->; [|done].
    apply not_elem_of_dom. intros Hk.
    by apply Hfresh, (parse_fields_dom _ _ _ _ _ Hrest).
  - specialize (IHrest Hnodup out' eq_refl).
    rewrite Forall_forall in IHrest. apply Forall_forall.
    intros [key' field'] Hin. rewrite (IHrest _ Hin). simpl. f_equal.
    unfold access. rewrite set_parsed_lookup, decide_False; [done|].
    intros ->. apply Hfresh. apply list_elem_of_fmap. by exists (key', field').
Qed.

(** The validated value has no property its schema does not declare, at
    any depth. *)
Lemma zparse_declared s : distinct_keys s → ∀ path v v',
  zparse s path v = PValid v' → no_undeclared s v'.
Proof.
  induction s as [ | | | options | element IH | shape IH | inner IH ]
    using Schema_nested_ind; intros Hkeys path v v'.
  - destruct v; simpl; try congruence. by intros [= <-].
  - destruct v; simpl; try congruence. destruct (canParseURL s); [|congruence].
    by intros [= <-].
  - destruct v; simpl; try congruence. destruct (isInteger n); [|congruence].
    by intros [= <-].
  - destruct v; simpl; try congruence. case_bool_decide; [|congruence].
    by intros [= <-].
  - destruct v; try (simpl; congruence).
    rewrite zparse_array.
    destruct (parse_items element path 0 items) as [[|e es] out] eqn:Hitems; [|done].
    intros [= <-]. apply no_undeclared_array.
    eapply parse_items_declared; [|exact Hitems]. by apply IH.
  - destruct v; try (simpl; congruence).
    rewrite zparse_object.
    destruct (parse_fields path fields shape) as [[|e es] out] eqn:Hfields; [|done].
    intros [= <-]. apply no_undeclared_object.
    apply distinct_keys_object in Hkeys as [Hnodup Hall].
    split; [by eapply parse_fields_dom|].
    pose proof (parse_fields_access _ _ _ Hnodup _ Hfields) as Hacc.
    rewrite Forall_forall in IH, Hall, Hacc. apply Forall_forall.
    intros kf Hin. eapply IH; [done|by apply Hall|by apply Hacc].
  - rewrite zparse_optional, no_undeclared_optional.
    destruct v; try (by apply IH). intros [= <-]. apply no_undeclared_undefined.
Qed.

End ZodFacts.

(** ** The error envelope *)

Section Envelope.

Variable canParseURL : string → bool.

(** The envelope schema accepts exactly the envelope-shaped values, and
    hands back the message alone. *)
Lemma envelope_accepted v message :
  envelope_shaped v message →
  safeParse canParseURL MurekaApiErrorEnvelopeSchema v = Ok (envelope_of message).
Proof.
  intros (o & e & -> & Ho & He).
  unfold safeParse, MurekaApiErrorEnvelopeSchema.
  rewrite zparse_object, parse_fields_cons. simpl parse_fields.
  unfold access at 1. rewrite Ho. simpl default.
  rewrite zparse_object, parse_fields_cons. simpl parse_fields.
  unfold access at 1. rewrite He. simpl.
  by rewrite !insert_empty.
Qed.

Lemma envelope_validated v envelope :
  safeParse canParseURL MurekaApiErrorEnvelopeSchema v = Ok envelope →
  ∃ message, envelope_shaped v message ∧ envelope = envelope_of message.
Proof.
  unfold safeParse, MurekaApiErrorEnvelopeSchema.
  destruct v as [ | | | | | |o]; try (simpl; congruence).
  rewrite zparse_object, parse_fields_cons. simpl parse_fields.
  unfold access at 1.
  destruct (o !! "error") as [[ | | | | | |e]|] eqn:Ho; try (simpl; congruence).
  simpl default. rewrite zparse_object, parse_fields_cons. simpl parse_fields.
  unfold access at 1.
  destruct (e !! "message") as [[ | | | |message| | ]|] eqn:He; try (simpl; congruence).
  simpl. rewrite !insert_empty. intros [= <-].
  exists message. split; [|done]. by exists o, e.
Qed.

Lemma envelope_message_of message : envelope_message (envelope_of message) = Ok message.
Proof.
  unfold envelope_message, envelope_of, access.
  rewrite lookup_singleton_eq. simpl. by rewrite lookup_singleton_eq.
Qed.

End Envelope.

(** ** The request executor *)

Lemma known_status_lookup code kind :
  (code, kind) ∈ ApiErrorKinds → STATUS_TO_ERROR !! code = Some kind.
Proof.
  unfold ApiErrorKinds. rewrite !elem_of_cons, elem_of_nil.
  intros [H|[H|[H|[H|[H|[H|[]]]]]]]; injection H as -> ->; reflexivity.
Qed.

Lemma unknown_status_lookup code :
  code ∉ ApiErrorKinds.*1 → STATUS_TO_ERROR !! code = None.
Proof.
  unfold ApiErrorKinds. simpl. rewrite !not_elem_of_cons.
  intros (? & ? & ? & ? & ? & ? & _). unfold STATUS_TO_ERROR.
  by rewrite !lookup_insert_ne, lookup_empty.
Qed.

Lemma known_status_not_ok response code kind :
  (code, kind) ∈ ApiErrorKinds → status response = code → ok response = false.
Proof.
  unfold ApiErrorKinds, ok. rewrite !elem_of_cons, elem_of_nil.
  intros [H|[H|[H|[H|[H|[H|[]]]]]]] ->; injection H as -> ->; reflexivity.
Qed.

Section Executor.

Variable P : Platform.
Variables (key base : string).

Lemma request_issued endpoint options schema :
  issued (request P key base endpoint options schema)
  = [fetch_request key base endpoint options].
Proof. done. Qed.

Lemma request_settled endpoint options schema response :
  fetch P (fetch_request key base endpoint options) = Ok response →
  result (request P key base endpoint options schema) = settle P response schema.
Proof. intros Hfetch. unfold request. simpl. by rewrite Hfetch. Qed.

(** No response at all: the cause is wrapped and thrown. *)
Lemma request_transport_failure endpoint options schema e :
  fetch P (fetch_request key base endpoint options) = Throw e →
  result (request P key base endpoint options schema) = Throw (TransportError e).
Proof. intros Hfetch. unfold request. simpl. by rewrite Hfetch. Qed.

(** A failure response with a well-formed envelope is classified by its
    status alone when the table knows the status, and labelled with the
    lower-cased message otherwise. *)
Lemma settle_envelope response schema parsed message :
  ok response = false →
  body_parses P response parsed →
  envelope_shaped parsed message →
  settle P response schema =
  match STATUS_TO_ERROR !! status response with
  | Some kind => Throw (ApiError kind)
  | None =>
      Throw (UnknownStatusError (status response)
               (if (0 <? String.length (trim P (toLowerCase P message)))%nat
                then Some (toLowerCase P message) else None))
  end.
Proof.
  intros Hok (t & Htext & Hparse) Hshape. unfold settle.
  rewrite Hok, Htext, Hparse. simpl negb. cbv iota.
  rewrite (envelope_accepted _ _ _ Hshape), envelope_message_of.
  destruct (STATUS_TO_ERROR !! status response); [done|].
  by destruct (0 <? _)%nat.
Qed.

Lemma settle_success response schema data :
  ok response = true →
  body_parses P response data →
  settle P response schema =
  match zparse (URL_canParse P) schema [] data with
  | PValid validated => Ok validated
  | PInvalid issues => Throw (ResponseShapeError issues)
  end.
Proof.
  intros Hok (t & Htext & Hparse). unfold settle, json, safeParse.
  rewrite Hok, Htext, Hparse. simpl.
  by destruct (zparse _ _ _ _).
Qed.

End Executor.

(** C1. A failure response whose status is one of 400, 401, 403, 429, 500,
    503 and whose body is a well-formed error envelope makes the executor
    fail with the error of the status table for that status, whatever the
    message of the envelope is. *)
Theorem known_status_yields_api_error
    (P : Platform) (key base endpoint : string) (options : RequestInit) (schema : Schema)
    (response : Response) (code : Z) (kind : Error) (parsed : JsValue) (message : string) :
  fetch P (fetch_request key base endpoint options) = Ok response →
  status response = code →
  (code, kind) ∈ ApiErrorKinds →
  body_parses P response parsed →
  envelope_shaped parsed message →
  result (request P key base endpoint options schema) = Throw (ApiError kind).
Proof.
  intros Hfetch Hcode Hkind Hbody Hshape.
  rewrite (request_settled _ _ _ _ _ _ _ Hfetch).
  rewrite (settle_envelope _ _ _ _ _ (known_status_not_ok _ _ _ Hkind Hcode) Hbody Hshape).
  by rewrite Hcode, (known_status_lookup _ _ Hkind).
Qed.

Lemma known_status_yields_api_error_witness :
  result (request (canned_host (text_response 429 "{...}") (Ok (envelope_of "Slow down")))
            "secret" MUREKA_API_BASE_URL "/v1/account/billing" get BillingInfoResponseSchema)
  = Throw (ApiError ErrRateLimitOrQuotaExceeded).
Proof.
  apply (known_status_yields_api_error _ _ _ _ _ _ (text_response 429 "{...}") 429
           ErrRateLimitOrQuotaExceeded (envelope_of "Slow down") "Slow down").
  - reflexivity.
  - reflexivity.
  - do 3 apply list_elem_of_further. apply list_elem_of_here.
  - exists "{...}". split; reflexivity.
  - eexists _, _. repeat split; reflexivity.
Defined.

(** C4. For a failure response the executor checks the body in a fixed
    order: a body that cannot be read fails with [BodyReadError]; a body
    that reads but is not JSON fails with [BodyParseError]; a body that
    parses but is not envelope-shaped fails with [EnvelopeParseError]
    carrying the validator's issues. The status plays no part, so a 400
    whose body is JSON but not an envelope fails with
    [EnvelopeParseError] and not with the classified error. *)
Theorem failure_body_checked_in_order
    (P : Platform) (key base endpoint : string) (options : RequestInit) (schema : Schema)
    (response : Response) :
  fetch P (fetch_request key base endpoint options) = Ok response →
  ok response = false →
  (∀ e, text response = Throw e →
     result (request P key base endpoint options schema) = Throw (BodyReadError e)) ∧
  (∀ t e, text response = Ok t → JSON_parse P t = Throw e →
     result (request P key base endpoint options schema) = Throw (BodyParseError e)) ∧
  (∀ t parsed, text response = Ok t → JSON_parse P t = Ok parsed →
     (∀ message, ¬ envelope_shaped parsed message) →
     ∃ issues,
       issues ≠ [] ∧
       zparse (URL_canParse P) MurekaApiErrorEnvelopeSchema [] parsed = PInvalid issues ∧
       result (request P key base endpoint options schema)
       = Throw (EnvelopeParseError (ErrZod issues))).
Proof.
  intros Hfetch Hok.
  rewrite (request_settled _ _ _ _ _ _ _ Hfetch). unfold settle. rewrite Hok. simpl negb.
  cbv iota. repeat split.
  - intros e ->. done.
  - intros t e -> ->. done.
  - intros t parsed -> -> Hshape.
    destruct (safeParse (URL_canParse P) MurekaApiErrorEnvelopeSchema parsed)
      as [envelope|err] eqn:Hsafe.
    + apply envelope_validated in Hsafe as (message & Hm & _). by apply Hshape in Hm.
    + unfold safeParse in Hsafe.
      destruct (zparse _ _ _ _) as [|issues] eqn:Hz; [done|].
      injection Hsafe as <-. exists issues.
      split; [by eapply zparse_issues_nonempty|done].
Qed.

Lemma failure_body_checked_in_order_witness :
  result (request (canned_host (unreadable_response 400) (Ok VNull))
            "secret" MUREKA_API_BASE_URL "/v1/account/billing" get BillingInfoResponseSchema)
  = Throw (BodyReadError (ErrNative "TypeError" "body stream already read")) ∧
  result (request (canned_host (text_response 400 "<html>")
                     (Throw (ErrNative "SyntaxError" "unexpected token")))
            "secret" MUREKA_API_BASE_URL "/v1/account/billing" get BillingInfoResponseSchema)
  = Throw (BodyParseError (ErrNative "SyntaxError" "unexpected token")) ∧
  ∃ issues,
    issues ≠ [] ∧
    zparse (λ url, String.prefix "https://" url) MurekaApiErrorEnvelopeSchema []
      (VObject {[ "error" := VString "boom" ]}) = PInvalid issues ∧
    result (request (canned_host (text_response 400 "{...}")
                       (Ok (VObject {[ "error" := VString "boom" ]})))
              "secret" MUREKA_API_BASE_URL "/v1/account/billing" get BillingInfoResponseSchema)
    = Throw (EnvelopeParseError (ErrZod issues)).
Proof.
  split; [|split].
  - apply (failure_body_checked_in_order
             (canned_host (unreadable_response 400) (Ok VNull))
             "secret" MUREKA_API_BASE_URL "/v1/account/billing" get BillingInfoResponseSchema
             (unreadable_response 400) eq_refl eq_refl).
    reflexivity.
  - apply (failure_body_checked_in_order
             (canned_host (text_response 400 "<html>")
                (Throw (ErrNative "SyntaxError" "unexpected token")))
             "secret" MUREKA_API_BASE_URL "/v1/account/billing" get BillingInfoResponseSchema
             (text_response 400 "<html>") eq_refl eq_refl) with (t := "<html>");
      reflexivity.
  - apply (failure_body_checked_in_order
             (canned_host (text_response 400 "{...}")
                (Ok (VObject {[ "error" := VString "boom" ]})))
             "secret" MUREKA_API_BASE_URL "/v1/account/billing" get BillingInfoResponseSchema
             (text_response 400 "{...}") eq_refl eq_refl) with (t := "{...}");
      [reflexivity | reflexivity |].
    intros message (o & e & Ho & Herror & _).
    injection Ho as <-. vm_compute in Herror. discriminate Herror.
Defined.

(** C5, as the code has it. A failure response whose status is outside
    the table and whose body is a well-formed envelope makes the executor
    fail with the unknown-status error of that status. When the
    lower-cased message is non-empty after trimming, the error carries the
    lower-cased message as it is, surrounding white space included;
    otherwise it carries the status only. *)
Theorem unknown_status_yields_lowercased_message
    (P : Platform) (key base endpoint : string) (options : RequestInit) (schema : Schema)
    (response : Response) (parsed : JsValue) (message : string) :
  fetch P (fetch_request key base endpoint options) = Ok response →
  ok response = false →
  status response ∉ ApiErrorKinds.*1 →
  body_parses P response parsed →
  envelope_shaped parsed message →
  result (request P key base endpoint options schema)
  = Throw (UnknownStatusError (status response)
             (if (0 <? String.length (trim P (toLowerCase P message)))%nat
              then Some (toLowerCase P message) else None)).
Proof.
  intros Hfetch Hok Hcode Hbody Hshape.
  rewrite (request_settled _ _ _ _ _ _ _ Hfetch).
  rewrite (settle_envelope _ _ _ _ _ Hok Hbody Hshape).
  by rewrite (unknown_status_lookup _ Hcode).
Qed.

Lemma unknown_status_yields_lowercased_message_witness :
  result (request (canned_host (text_response 404 "{...}") (Ok (envelope_of "Not Found")))
            "secret" MUREKA_API_BASE_URL "/v1/song/query/task-1" get
            QuerySongTaskResponseSchema)
  = Throw (UnknownStatusError 404 (Some "not found")) ∧
  result (request (canned_host (text_response 404 "{...}") (Ok (envelope_of "   ")))
            "secret" MUREKA_API_BASE_URL "/v1/song/query/task-1" get
            QuerySongTaskResponseSchema)
  = Throw (UnknownStatusError 404 None).
Proof.
  split.
  - apply (unknown_status_yields_lowercased_message
             (canned_host (text_response 404 "{...}") (Ok (envelope_of "Not Found")))
             "secret" MUREKA_API_BASE_URL "/v1/song/query/task-1" get
             QuerySongTaskResponseSchema (text_response 404 "{...}")
             (envelope_of "Not Found") "Not Found" eq_refl eq_refl).
    + simpl. rewrite !not_elem_of_cons. repeat split; try discriminate. apply not_elem_of_nil.
    + exists "{...}". split; reflexivity.
    + eexists _, _. repeat split; reflexivity.
  - apply (unknown_status_yields_lowercased_message
             (canned_host (text_response 404 "{...}") (Ok (envelope_of "   ")))
             "secret" MUREKA_API_BASE_URL "/v1/song/query/task-1" get
             QuerySongTaskResponseSchema (text_response 404 "{...}")
             (envelope_of "   ") "   " eq_refl eq_refl).
    + simpl. rewrite !not_elem_of_cons. repeat split; try discriminate. apply not_elem_of_nil.
    + exists "{...}". split; reflexivity.
    + eexists _, _. repeat split; reflexivity.
Defined.

(** C5 as stated fails: for status 404 and the envelope message
    [" Not Found "] the error carries [" not found "], not the trimmed
    text. *)
Lemma unknown_status_message_not_trimmed :
  result (request (canned_host (text_response 404 "{...}") (Ok (envelope_of " Not Found ")))
            "secret" MUREKA_API_BASE_URL "/v1/song/query/task-1" get
            QuerySongTaskResponseSchema)
  = Throw (UnknownStatusError 404 (Some " not found ")) ∧
  ascii_trim (ascii_toLowerCase " Not Found ") = "not found" ∧
  UnknownStatusError 404 (Some " not found ")
  ≠ UnknownStatusError 404 (Some (ascii_trim (ascii_toLowerCase " Not Found "))).
Proof.
  split; [|split].
  - vm_compute. reflexivity.
  - reflexivity.
  - vm_compute. discriminate.
Qed.

(** C6. For a success response whose body parses but fails the declared
    response shape, the executor fails with [ResponseShapeError] carrying
    the validator's issues, so no value reaches the caller; when the body
    is not JSON at all it fails with the success-branch body parse
    error. *)
Theorem success_body_validated
    (P : Platform) (key base endpoint : string) (options : RequestInit) (schema : Schema)
    (response : Response) :
  fetch P (fetch_request key base endpoint options) = Ok response →
  ok response = true →
  (∀ t data issues,
     text response = Ok t → JSON_parse P t = Ok data →
     zparse (URL_canParse P) schema [] data = PInvalid issues →
     result (request P key base endpoint options schema)
     = Throw (ResponseShapeError issues) ∧
     ∀ value, result (request P key base endpoint options schema) ≠ Ok value) ∧
  (∀ t e,
     text response = Ok t → JSON_parse P t = Throw e →
     result (request P key base endpoint options schema)
     = Throw (SuccessBodyParseError e)).
Proof.
  intros Hfetch Hok. rewrite (request_settled _ _ _ _ _ _ _ Hfetch). split.
  - intros t data issues Htext Hparse Hinvalid.
    rewrite (settle_success P response schema data Hok) by (by exists t).
    rewrite Hinvalid. by split.
  - intros t e Htext Hparse. unfold settle, json. by rewrite Hok, Htext, Hparse.
Qed.

Lemma success_body_validated_witness :
  (result (generateSong'
             (canned_host (text_response 200 "{...}") (Ok song_task_body_without_id))
             "secret" MUREKA_API_BASE_URL sample_song_input)
   = Throw (ResponseShapeError
              [invalid_type (ExpectedType TString) TUndefined [PKey "id"]]) ∧
   ∀ value,
     result (generateSong'
               (canned_host (text_response 200 "{...}") (Ok song_task_body_without_id))
               "secret" MUREKA_API_BASE_URL sample_song_input) ≠ Ok value) ∧
  result (getBillingInfo'
            (canned_host (text_response 200 "<html>")
               (Throw (ErrNative "SyntaxError" "unexpected token")))
            "secret" MUREKA_API_BASE_URL)
  = Throw (SuccessBodyParseError (ErrNative "SyntaxError" "unexpected token")).
Proof.
  split.
  - apply (success_body_validated
             (canned_host (text_response 200 "{...}") (Ok song_task_body_without_id))
             "secret" MUREKA_API_BASE_URL "/v1/song/generate"
             (post_json (canned_host (text_response 200 "{...}")
                           (Ok song_task_body_without_id))
                (js_GenerateSongInput sample_song_input))
             GenerateSongResponseSchema (text_response 200 "{...}") eq_refl eq_refl)
      with (t := "{...}") (data := song_task_body_without_id).
    + reflexivity.
    + reflexivity.
    + vm_compute. reflexivity.
  - apply (success_body_validated
             (canned_host (text_response 200 "<html>")
                (Throw (ErrNative "SyntaxError" "unexpected token")))
             "secret" MUREKA_API_BASE_URL "/v1/account/billing" get BillingInfoResponseSchema
             (text_response 200 "<html>") eq_refl eq_refl) with (t := "<html>");
      reflexivity.
Defined.

(** C7, as the code has it. A [querySongTask] success body that
    satisfies the schema and carries no property beyond the declared ones,
    at any depth, is returned as it is: the same properties with the same
    values. *)
Theorem querySongTask_returns_exact_body
    (P : Platform) (config : ClientConfig) (client : Client) (input : QuerySongTaskInput)
    (req : Request) (response : Response) (body validated : JsValue) :
  createClient P config = Ok client →
  issued (querySongTask client input) = [req] →
  fetch P req = Ok response →
  ok response = true →
  body_parses P response body →
  safeParse (URL_canParse P) QuerySongTaskResponseSchema body = Ok validated →
  no_undeclared QuerySongTaskResponseSchema body →
  result (querySongTask client input) = Ok body.
Proof.
  unfold createClient. destruct (apiKey config) as [key|]; [|done].
  intros [= <-].
  change (querySongTask (client_object P key ?b) input)
    with (querySongTask' P key b input).
  unfold querySongTask'. rewrite request_issued.
  intros [= <-] Hfetch Hok Hbody Hsafe Hexact.
  rewrite (request_settled _ _ _ _ _ _ _ Hfetch).
  rewrite (settle_success _ _ _ _ Hok Hbody).
  unfold safeParse in Hsafe.
  destruct (zparse _ _ _ _) as [v|] eqn:Hz; [|done].
  f_equal. by eapply zparse_exact.
Qed.

Lemma ResponseSchemas_distinct_keys : Forall distinct_keys ResponseSchemas.
Proof.
  unfold ResponseSchemas.
  repeat (apply Forall_cons; split; [solve_distinct_keys|]). constructor.
Qed.

Lemma querySongTask_returns_exact_body_witness :
  result (querySongTask
            (client_object (canned_host (text_response 200 "{...}") (Ok song_task_body))
               "secret" MUREKA_API_BASE_URL)
            {| qs_task_id := "task-1" |})
  = Ok song_task_body.
Proof.
  apply (querySongTask_returns_exact_body
           (canned_host (text_response 200 "{...}") (Ok song_task_body))
           {| apiKey := Some "secret"; apiBaseUrl := None |}
           _ {| qs_task_id := "task-1" |}
           (fetch_request "secret" MUREKA_API_BASE_URL "/v1/song/query/task-1" get)
           (text_response 200 "{...}") song_task_body song_task_body).
  - reflexivity.
  - reflexivity.
  - reflexivity.
  - reflexivity.
  - exists "{...}". split; reflexivity.
  - vm_compute. reflexivity.
  - apply (zparse_declared (λ url, String.prefix "https://" url)
             QuerySongTaskResponseSchema) with (path := []) (v := song_task_body).
    + solve_distinct_keys.
    + vm_compute. reflexivity.
Defined.

(** C7 as stated fails: a body that satisfies the schema and also has
    the undeclared property [trace_id] is returned without it. *)
Lemma querySongTask_strips_undeclared :
  createClient (canned_host (text_response 200 "{...}") (Ok song_task_body_traced))
    {| apiKey := Some "secret"; apiBaseUrl := None |}
  = Ok (client_object (canned_host (text_response 200 "{...}") (Ok song_task_body_traced))
          "secret" MUREKA_API_BASE_URL) ∧
  safeParse (λ url, String.prefix "https://" url) QuerySongTaskResponseSchema
    song_task_body_traced = Ok song_task_body ∧
  result (querySongTask
            (client_object
               (canned_host (text_response 200 "{...}") (Ok song_task_body_traced))
               "secret" MUREKA_API_BASE_URL)
            {| qs_task_id := "task-1" |})
  = Ok song_task_body ∧
  song_task_body ≠ song_task_body_traced.
Proof.
  split; [reflexivity|]. split; [vm_compute; reflexivity|].
  split; [vm_compute; reflexivity|].
  intros H.
  apply (f_equal (λ v, match v with VObject m => m !! "trace_id" | _ => None end)) in H.
  vm_compute in H. discriminate H.
Qed.

(** C10. When a success body has a property [extra] that the response
    shape does not declare, validation succeeds as it does without that
    property and returns the same value: a value with no undeclared
    property at any depth, with every declared property that is not
    optional, and so different from the body. *)
Theorem undeclared_fields_are_dropped
    (P : Platform) (key base endpoint : string) (options : RequestInit)
    (shape : list (string * Schema)) (response : Response)
    (data : gmap string JsValue) (extra : string) (x validated : JsValue) :
  fetch P (fetch_request key base endpoint options) = Ok response →
  ok response = true →
  body_parses P response (VObject (<[extra := x]> data)) →
  extra ∉ declared shape →
  distinct_keys (ZodObject shape) →
  safeParse (URL_canParse P) (ZodObject shape) (VObject data) = Ok validated →
  result (request P key base endpoint options (ZodObject shape)) = Ok validated ∧
  no_undeclared (ZodObject shape) validated ∧
  (∃ out, validated = VObject out ∧
          (∀ k, k ∈ dom out → k ∈ declared shape) ∧
          (∀ k field, (k, field) ∈ shape → is_optional field = false → k ∈ dom out) ∧
          out !! extra = None) ∧
  validated ≠ VObject (<[extra := x]> data).
Proof.
  intros Hfetch Hok Hbody Hextra Hkeys Hsafe.
  rewrite (request_settled _ _ _ _ _ _ _ Hfetch).
  rewrite (settle_success _ _ _ _ Hok Hbody).
  unfold safeParse in Hsafe.
  destruct (zparse _ _ _ (VObject data)) as [v|] eqn:Hz; [|done].
  injection Hsafe as ->.
  pose proof (zparse_declared _ _ Hkeys _ _ _ Hz) as Hdeclared.
  rewrite zparse_object in Hz |- *.
  rewrite (parse_fields_agree _ _ data (<[extra := x]> data)).
  2:{ intros k Hk. apply lookup_insert_ne. by intros ->. }
  destruct (parse_fields _ _ data shape) as [[|e es] out] eqn:Hfields; [|done].
  injection Hz as <-.
  assert (out !! extra = None) as Hnone.
  { apply not_elem_of_dom. intros Hin. by apply Hextra, (parse_fields_dom _ _ _ _ _ _ Hfields). }
  split; [done|]. split; [done|]. split.
  - exists out. split; [done|]. split; [by eapply parse_fields_dom|]. split; [|done].
    intros k field. by eapply parse_fields_required.
  - intros [= Heq]. rewrite Heq, lookup_insert_eq in Hnone. discriminate Hnone.
Qed.

Lemma undeclared_fields_are_dropped_witness :
  result (request
            (canned_host (text_response 200 "{...}")
               (Ok (VObject (<["trace_id" := VString "abc"]> upload_file_fields))))
            "secret" MUREKA_API_BASE_URL "/v1/files/upload" (post_form upload_form)
            UploadFileResponseSchema)
  = Ok (VObject upload_file_fields) ∧
  VObject upload_file_fields
  ≠ VObject (<["trace_id" := VString "abc"]> upload_file_fields).
Proof.
  destruct (undeclared_fields_are_dropped
              (canned_host (text_response 200 "{...}")
                 (Ok (VObject (<["trace_id" := VString "abc"]> upload_file_fields))))
              "secret" MUREKA_API_BASE_URL "/v1/files/upload" (post_form upload_form)
              [("id", ZodString); ("bytes", ZodInt); ("created_at", ZodInt);
               ("filename", ZodString); ("purpose", ZodString)]
              (text_response 200 "{...}") upload_file_fields "trace_id" (VString "abc")
              (VObject upload_file_fields))
    as (Hresult & _ & _ & Hdiffers).
  - reflexivity.
  - reflexivity.
  - exists "{...}". split; reflexivity.
  - apply (bool_decide_unpack _). vm_compute. exact I.
  - solve_distinct_keys.
  - vm_compute. reflexivity.
  - split; [exact Hresult | exact Hdiffers].
Defined.

(** ** The client *)

(** Every request a client issues carries its key and goes to its base
    URL, with the JSON content type. *)
Lemma client_requests P key base call req :
  req ∈ issued (invoke (client_object P key base) call) →
  req_headers req !! "Authorization" = Some ("Bearer " +:+ key) ∧
  req_headers req !! "Content-Type" = Some "application/json" ∧
  ∃ path, req_url req = base +:+ path.
Proof.
  assert (Hreq : ∀ endpoint options schema,
            req ∈ issued (request P key base endpoint options schema) →
            req_headers req !! "Authorization" = Some ("Bearer " +:+ key) ∧
            req_headers req !! "Content-Type" = Some "application/json" ∧
            ∃ path, req_url req = base +:+ path).
  { intros endpoint options schema. rewrite request_issued.
    intros ->%list_elem_of_singleton. unfold fetch_request. simpl.
    split; [|split].
    - by rewrite lookup_insert_ne, lookup_insert_eq.
    - by rewrite lookup_insert_eq.
    - by exists endpoint. }
  destruct call; try apply Hreq.
  simpl. unfold generateInstrumental'.
  destruct (gi_prompt input), (gi_instrumental_id input); try apply Hreq.
  simpl. by intros ?%elem_of_nil.
Qed.

(** Every call, other than [generateInstrumental] with neither control
    field set, issues exactly one request, and that request carries the
    client's key and goes to a path under [/v1/] of the client's base
    URL. *)
Lemma client_call_issues P key base call :
  (∃ input, call = CallGenerateInstrumental input ∧
            gi_prompt input = None ∧ gi_instrumental_id input = None) ∨
  ∃ req,
    issued (invoke (client_object P key base) call) = [req] ∧
    req_headers req !! "Authorization" = Some ("Bearer " +:+ key) ∧
    ∃ path, req_url req = base +:+ ("/v1/" +:+ path).
Proof.
  assert (Hreq : ∀ endpoint options schema,
            ∃ req,
              issued (request P key base ("/v1/" +:+ endpoint) options schema) = [req] ∧
              req_headers req !! "Authorization" = Some ("Bearer " +:+ key) ∧
              ∃ path, req_url req = base +:+ ("/v1/" +:+ path)).
  { intros endpoint options schema. eexists. split; [apply request_issued|].
    unfold fetch_request. simpl. split.
    - by rewrite lookup_insert_ne, lookup_insert_eq.
    - by exists endpoint. }
  destruct call; try (right; exact (Hreq _ _ _)).
  simpl. unfold generateInstrumental'.
  destruct (gi_prompt input) eqn:Hprompt, (gi_instrumental_id input) eqn:Hid;
    try (right; exact (Hreq _ _ _)).
  left. by exists input.
Qed.

(** C8. [createClient] throws, and yields no client, when the credential
    is absent. With a credential it returns a client whose credential and
    base URL are fixed: every call on it, other than [generateInstrumental]
    with neither control field set, issues exactly one request, and every
    request it issues carries that credential and goes to the configured
    base URL, or to [https://api.mureka.ai] when none was configured. *)
Theorem createClient_requires_credential (P : Platform) (config : ClientConfig) :
  (apiKey config = None →
   createClient P config = Throw MissingCredentialError) ∧
  (∀ key, apiKey config = Some key →
     ∃ client,
       createClient P config = Ok client ∧
       (∀ call req, req ∈ issued (invoke client call) →
          req_headers req !! "Authorization" = Some ("Bearer " +:+ key) ∧
          ∃ path,
            req_url req = default "https://api.mureka.ai" (apiBaseUrl config) +:+ path) ∧
       (∀ call,
          (∃ input, call = CallGenerateInstrumental input ∧
                    gi_prompt input = None ∧ gi_instrumental_id input = None) ∨
          ∃ req,
            issued (invoke client call) = [req] ∧
            req_headers req !! "Authorization" = Some ("Bearer " +:+ key) ∧
            ∃ path,
              req_url req
              = default "https://api.mureka.ai" (apiBaseUrl config)
                +:+ ("/v1/" +:+ path))).
Proof.
  unfold createClient. split.
  - by intros ->.
  - intros key ->. eexists. split; [done|]. split.
    + intros call req Hreq. apply client_requests in Hreq as (Hauth & _ & Hurl). done.
    + intros call. apply client_call_issues.
Qed.

Lemma createClient_requires_credential_witness :
  createClient offline_host {| apiKey := None; apiBaseUrl := None |}
  = Throw MissingCredentialError ∧
  ∃ client,
    createClient offline_host {| apiKey := Some "secret"; apiBaseUrl := None |} = Ok client ∧
    (∀ call req, req ∈ issued (invoke client call) →
       req_headers req !! "Authorization" = Some "Bearer secret" ∧
       ∃ path, req_url req = "https://api.mureka.ai" +:+ path) ∧
    ∃ req,
      issued (invoke client CallGetBillingInfo) = [req] ∧
      req_headers req !! "Authorization" = Some "Bearer secret" ∧
      ∃ path, req_url req = "https://api.mureka.ai" +:+ ("/v1/" +:+ path).
Proof.
  split.
  - apply (createClient_requires_credential offline_host
             {| apiKey := None; apiBaseUrl := None |}). reflexivity.
  - destruct (createClient_requires_credential offline_host
                {| apiKey := Some "secret"; apiBaseUrl := None |}) as [_ Hsome].
    destruct (Hsome "secret" eq_refl) as (client & Hclient & Hall & Hissues).
    exists client. split; [exact Hclient|]. split; [exact Hall|].
    destruct (Hissues CallGetBillingInfo) as [(input & Hcall & _)|Hreq].
    + discriminate Hcall.
    + exact Hreq.
Defined.

(** C9. Only an absent credential is rejected. The empty string is a
    credential: the client is created, every call on it, other than
    [generateInstrumental] with neither control field set, issues exactly
    one request, and every request it issues has the header
    [Authorization: Bearer ] with an empty token. *)
Theorem createClient_accepts_empty_key (P : Platform) (config : ClientConfig) :
  ((∃ e, createClient P config = Throw e) ↔ apiKey config = None) ∧
  (apiKey config = Some "" →
   ∃ client,
     createClient P config = Ok client ∧
     (∀ call req, req ∈ issued (invoke client call) →
        req_headers req !! "Authorization" = Some "Bearer ") ∧
     (∀ call,
        (∃ input, call = CallGenerateInstrumental input ∧
                  gi_prompt input = None ∧ gi_instrumental_id input = None) ∨
        ∃ req,
          issued (invoke client call) = [req] ∧
          req_headers req !! "Authorization" = Some "Bearer ")).
Proof.
  unfold createClient. split.
  - destruct (apiKey config); split; try done. by intros [e ?]. by eexists.
  - intros ->. eexists. split; [done|]. split.
    + intros call req Hreq. by apply client_requests in Hreq as (Hauth & _ & _).
    + intros call.
      destruct (client_call_issues P "" (default MUREKA_API_BASE_URL (apiBaseUrl config))
                  call) as [Hneither|(req & Hissued & Hauth & _)].
      * by left.
      * right. by exists req.
Qed.

Lemma createClient_accepts_empty_key_witness :
  ∃ client,
    createClient offline_host {| apiKey := Some ""; apiBaseUrl := None |} = Ok client ∧
    (∀ call req, req ∈ issued (invoke client call) →
       req_headers req !! "Authorization" = Some "Bearer ") ∧
    ∃ req,
      issued (invoke client CallGetBillingInfo) = [req] ∧
      req_headers req !! "Authorization" = Some "Bearer ".
Proof.
  destruct (createClient_accepts_empty_key offline_host
              {| apiKey := Some ""; apiBaseUrl := None |}) as [_ Hempty].
  destruct (Hempty eq_refl) as (client & Hclient & Hall & Hissues).
  exists client. split; [exact Hclient|]. split; [exact Hall|].
  destruct (Hissues CallGetBillingInfo) as [(input & Hcall & _)|Hreq].
  - discriminate Hcall.
  - exact Hreq.
Defined.

Example empty_key_request_ex :
  issued (getBillingInfo (client_object offline_host "" MUREKA_API_BASE_URL))
  = [{| req_url := "https://api.mureka.ai/v1/account/billing";
        req_method := GET;
        req_headers := {[ "Authorization" := "Bearer ";
                          "Content-Type" := "application/json" ]};
        req_body := None |}].
Proof. vm_compute. reflexivity. Qed.

(** ** Endpoints *)

(** C2, what the code does. [uploadFile] and [addUploadPart] hand
    [fetch] a [FormData] body holding exactly the fields supplied, and with
    it the header [Content-Type: application/json], which [request] sets
    on every request whatever the body is. *)
Theorem multipart_requests_declare_json
    (P : Platform) (key base : string) (input : UploadFileInput)
    (part : AddUploadPartInput) :
  (∃ req,
     issued (uploadFile (client_object P key base) input) = [req] ∧
     req_body req
     = Some (BodyFormData
               [("file", FormFile (uf_file input));
                ("purpose",
                 FormString (Purpose_name (FilePurpose_purpose (uf_purpose input))))]) ∧
     req_headers req !! "Content-Type" = Some "application/json") ∧
  (∃ req,
     issued (addUploadPart (client_object P key base) part) = [req] ∧
     req_body req
     = Some (BodyFormData
               [("upload_id", FormString (ap_upload_id part));
                ("file", FormFile (ap_file part))]) ∧
     req_headers req !! "Content-Type" = Some "application/json").
Proof.
  split; eexists; (split; [reflexivity|]); split; try reflexivity;
    simpl; by rewrite lookup_insert_eq.
Qed.

Example uploadFile_request_ex :
  issued (uploadFile (client_object offline_host "secret" MUREKA_API_BASE_URL)
            {| uf_file := sample_file; uf_purpose := for_voice |})
  = [{| req_url := "https://api.mureka.ai/v1/files/upload";
        req_method := POST;
        req_headers := {[ "Authorization" := "Bearer secret";
                          "Content-Type" := "application/json" ]};
        req_body := Some (BodyFormData upload_form) |}].
Proof. vm_compute. reflexivity. Qed.

(** What [generateInstrumental] checks before calling the executor: it
    fails locally, with no request, exactly when neither control field is
    set. *)
Lemma generateInstrumental_precondition P key base input :
  (gi_prompt input = None ∧ gi_instrumental_id input = None →
   generateInstrumental (client_object P key base) input
   = {| issued := []; result := Throw PreconditionError |}) ∧
  (is_Some (gi_prompt input) ∨ is_Some (gi_instrumental_id input) →
   issued (generateInstrumental (client_object P key base) input)
   = [fetch_request key base "/v1/instrumental/generate"
        (post_json P (js_GenerateInstrumentalInput input))]).
Proof.
  simpl. unfold generateInstrumental'. split.
  - by intros [-> ->].
  - destruct (gi_prompt input), (gi_instrumental_id input); try done.
    by intros [[? [=]]|[? [=]]].
Qed.

(** The executor never fails with the precondition error. *)
Lemma request_not_precondition P key base endpoint options schema :
  result (request P key base endpoint options schema) ≠ Throw PreconditionError.
Proof.
  unfold request, PreconditionError. simpl.
  destruct (fetch P _) as [response|]; [|done].
  unfold settle. destruct (negb (ok response)).
  - destruct (text response); [|done].
    destruct (JSON_parse P _); [|done].
    destruct (safeParse _ _ _) as [envelope|]; [|done].
    destruct (STATUS_TO_ERROR !! _); [done|].
    unfold envelope_message.
    destruct envelope; try done. destruct (access _ _); try done.
    destruct (access _ _); try done.
    destruct (0 <? _)%nat; simpl; done.
  - destruct (json P response); [|done]. by destruct (safeParse _ _ _).
Qed.

(** C3, what the code does when both control fields are set: there is
    no local failure, and the request is issued. *)
Theorem generateInstrumental_both_set_issues_request
    (P : Platform) (key base : string) (model : InstrumentalModel) (prompt id : string) :
  issued (generateInstrumental (client_object P key base)
            {| gi_model := model; gi_prompt := Some prompt;
               gi_instrumental_id := Some id |})
  = [fetch_request key base "/v1/instrumental/generate"
       (post_json P (js_GenerateInstrumentalInput
                       {| gi_model := model; gi_prompt := Some prompt;
                          gi_instrumental_id := Some id |}))] ∧
  result (generateInstrumental (client_object P key base)
            {| gi_model := model; gi_prompt := Some prompt;
               gi_instrumental_id := Some id |})
  ≠ Throw PreconditionError.
Proof.
  split; [reflexivity|]. apply request_not_precondition.
Qed.

Example generateInstrumental_both_set_ex :
  issued (generateInstrumental (client_object offline_host "secret" MUREKA_API_BASE_URL)
            {| gi_model := instrumental_auto; gi_prompt := Some "calm piano";
               gi_instrumental_id := Some "inst-1" |})
  = [{| req_url := "https://api.mureka.ai/v1/instrumental/generate";
        req_method := POST;
        req_headers := {[ "Authorization" := "Bearer secret";
                          "Content-Type" := "application/json" ]};
        req_body := Some (BodyText "{...}") |}].
Proof. vm_compute. reflexivity. Qed.

(** ** More on validation *)

Section ZodMore.

Variable canParseURL : string → bool.

(** An absent property validates only as an absent property. *)
Lemma zparse_undefined s path y :
  zparse canParseURL s path VUndefined = PValid y → y = VUndefined.
Proof. destruct s; simpl; congruence. Qed.

(** A schema that is not optional reports an absent property as one
    type issue at the property's path. *)
Lemma zparse_required_undefined s path :
  is_optional s = false →
  ∃ expected,
    zparse canParseURL s path VUndefined = PInvalid [invalid_type expected TUndefined path].
Proof. destruct s; intros Hopt; try discriminate Hopt; eexists; reflexivity. Qed.

(** The issues of a property are among the issues of the object. *)
Lemma parse_fields_issues path data fields key field es :
  (key, field) ∈ fields →
  zparse canParseURL field (path ++ [PKey key]) (access data key) = PInvalid es →
  ∀ issue, issue ∈ es → issue ∈ (parse_fields canParseURL path data fields).1.
Proof.
  induction fields as [|[key' field'] rest IH]; intros Hin Hes issue Hissue.
  - by apply elem_of_nil in Hin.
  - rewrite parse_fields_cons.
    destruct (parse_fields canParseURL path data rest) as [is' out'] eqn:Hrest.
    apply elem_of_cons in Hin as [[= <- <-]|Hin].
    + rewrite Hes. simpl. apply elem_of_app. by left.
    + specialize (IH Hin Hes issue Hissue). simpl in IH.
      destruct (zparse canParseURL field' _ _); simpl; [done|].
      apply elem_of_app. by right.
Qed.

(** Which properties the validated object has: the declared ones the
    input has. *)
Lemma parse_fields_keys path data fields out :
  parse_fields canParseURL path data fields = ([], out) →
  ∀ k, k ∈ dom out ↔ k ∈ dom data ∧ k ∈ declared fields.
Proof.
  revert out. unfold declared.
  induction fields as [|[key field] rest IH]; intros out.
  - simpl. intros [= <-] k. rewrite dom_empty_L, elem_of_nil.
    split; [by intros ?%not_elem_of_empty|by intros [_ []]].
  - rewrite parse_fields_cons.
    destruct (parse_fields canParseURL path data rest) as [is' out'] eqn:Hrest.
    destruct (zparse canParseURL field (path ++ [PKey key]) (access data key))
      as [y|es] eqn:Hy.
    2:{ intros [= Hnil <-]. apply app_eq_nil in Hnil as [-> _].
        by apply zparse_issues_nonempty in Hy. }
    intros [= -> <-] k. specialize (IH out' eq_refl k).
    rewrite fmap_cons, elem_of_cons. simpl.
    rewrite (elem_of_dom (set_parsed _ _ _ _)), set_parsed_lookup.
    destruct (decide (key = k)) as [->|Hne].
    + unfold access in Hy. destruct (data !! k) as [x|] eqn:Hk; simpl in Hy.
      * assert (k ∈ dom data) as Hdom by (apply elem_of_dom; eauto).
        rewrite bool_decide_eq_true_2 by done.
        destruct y; (split; [by auto|by eauto]).
      * assert (k ∉ dom data) as Hdom by (by apply not_elem_of_dom).
        apply zparse_undefined in Hy as ->.
        rewrite bool_decide_eq_false_2 by done.
        rewrite <- elem_of_dom, IH. tauto.
    + rewrite <- elem_of_dom, IH.
      split; [intros [? ?]; auto|intros [? [?|?]]; [congruence|auto]].
Qed.

(** An object whose declared properties validate to themselves validates,
    to its declared part. *)
Lemma parse_fields_fixed path data fields :
  Forall (λ kf, ∀ p, zparse canParseURL kf.2 p (access data kf.1)
                     = PValid (access data kf.1)) fields →
  ∃ out,
    parse_fields canParseURL path data fields = ([], out) ∧
    ∀ k, out !! k = if decide (k ∈ declared fields) then data !! k else None.
Proof.
  unfold declared.
  induction fields as [|[key field] rest IH]; intros Hall.
  - exists ∅. split; [done|]. intros k. by rewrite lookup_empty.
  - apply Forall_cons in Hall as [Hfield Hall]. simpl in Hfield.
    destruct (IH Hall) as (out' & Hrest & Hout').
    rewrite parse_fields_cons, Hrest, Hfield.
    eexists. split; [done|]. intros k.
    rewrite set_parsed_lookup, fmap_cons. simpl.
    destruct (decide (key = k)) as [->|Hne].
    + rewrite decide_True by (by left).
      unfold access. destruct (data !! k) as [x|] eqn:Hk; simpl.
      * destruct x; try done.
        by rewrite bool_decide_eq_true_2 by (apply elem_of_dom; eauto).
      * rewrite bool_decide_eq_false_2 by (rewrite elem_of_dom, Hk; by intros [? ?]).
        rewrite Hout'. by case_decide.
    + rewrite Hout'. destruct (decide (k ∈ rest.*1)) as [Hin|Hnin].
      * by rewrite decide_True by (by right).
      * rewrite decide_False; [done|]. intros [->|?]%elem_of_cons; done.
Qed.

Lemma parse_items_fixed element :
  (∀ p v v', zparse canParseURL element p v = PValid v' →
             ∀ p', zparse canParseURL element p' v' = PValid v') →
  ∀ path items i out,
    parse_items canParseURL element path i items = ([], out) →
    ∀ path' j, parse_items canParseURL element path' j out = ([], out).
Proof.
  intros IH path. induction items as [|x rest IHrest]; intros i out.
  - simpl. by intros [= <-].
  - rewrite parse_items_cons.
    destruct (parse_items canParseURL element path (S i) rest) as [is' out'] eqn:Hrest.
    destruct (zparse canParseURL element (path ++ [PIndex i]) x) as [y|es] eqn:Hy.
    + intros [= -> <-] path' j. rewrite parse_items_cons.
      rewrite (IHrest _ _ Hrest path' (S j)). by rewrite (IH _ _ _ Hy).
    + intros [= Hnil <-]. apply app_eq_nil in Hnil as [-> _].
      by apply zparse_issues_nonempty in Hy.
Qed.

(** Validation is idempotent: a validated value validates to itself. *)
Lemma zparse_idempotent s : distinct_keys s → ∀ path v v',
  zparse canParseURL s path v = PValid v' →
  ∀ path', zparse canParseURL s path' v' = PValid v'.
Proof.
  induction s as [ | | | options | element IH | shape IH | inner IH ]
    using Schema_nested_ind; intros Hkeys path v v'.
  - destruct v; simpl; try congruence. by intros [= <-].
  - destruct v; simpl; try congruence.
    destruct (canParseURL s) eqn:Hurl; [|congruence].
    intros [= <-] path'. simpl. by rewrite Hurl.
  - destruct v; simpl; try congruence.
    destruct (isInteger n) eqn:Hint; [|congruence].
    intros [= <-] path'. simpl. by rewrite Hint.
  - destruct v; simpl; try congruence.
    case_bool_decide as Hin; [|congruence].
    intros [= <-] path'. simpl. by rewrite bool_decide_eq_true_2.
  - destruct v; try (simpl; congruence).
    rewrite zparse_array.
    destruct (parse_items canParseURL element path 0 items) as [[|e es] out] eqn:Hitems;
      [|done].
    intros [= <-] path'. rewrite zparse_array.
    by rewrite (parse_items_fixed element (IH Hkeys) _ _ _ _ Hitems).
  - destruct v; try (simpl; congruence).
    rewrite zparse_object.
    destruct (parse_fields canParseURL path fields shape) as [[|e es] out] eqn:Hfields;
      [|done].
    intros [= <-] path'. rewrite zparse_object.
    apply distinct_keys_object in Hkeys as [Hnodup Hall].
    pose proof (parse_fields_access _ _ _ _ Hnodup _ Hfields) as Hacc.
    destruct (parse_fields_fixed path' out shape) as (out' & Hout & Hlookup).
    { rewrite Forall_forall in IH, Hall, Hacc. apply Forall_forall.
      intros kf Hin p. eapply IH; [done|by apply Hall|by apply Hacc]. }
    rewrite Hout. do 2 f_equal. apply map_eq. intros k. rewrite Hlookup.
    case_decide as Hk; [done|]. symmetry. apply not_elem_of_dom. intros Hdom.
    by apply Hk, (parse_fields_dom _ _ _ _ _ _ Hfields).
  - rewrite zparse_optional.
    destruct v; try (intros Hv path'; rewrite zparse_optional;
                     rewrite (IH Hkeys _ _ _ Hv path'); by destruct v').
    by intros [= <-].
Qed.

End ZodMore.

(** ** More on the executor *)

Lemma status_lookup_known code kind :
  STATUS_TO_ERROR !! code = Some kind → (code, kind) ∈ ApiErrorKinds.
Proof.
  intros Hlookup. destruct (decide (code ∈ ApiErrorKinds.*1)) as [Hin|Hnin].
  - unfold ApiErrorKinds in *. simpl in Hin.
    rewrite !elem_of_cons, elem_of_nil in Hin.
    destruct Hin as [->|[->|[->|[->|[->|[->|[]]]]]]];
      vm_compute in Hlookup; injection Hlookup as <-;
      rewrite !elem_of_cons; tauto.
  - by rewrite (unknown_status_lookup _ Hnin) in Hlookup.
Qed.

(** What a failure response settles to does not depend on the response
    schema, and is a failure of the taxonomy. *)
Lemma settle_failure P response :
  ok response = false →
  ∃ e, in_taxonomy e ∧ ∀ schema, settle P response schema = Throw e.
Proof.
  intros Hok. unfold settle, in_taxonomy. rewrite Hok. simpl negb. cbv iota.
  destruct (text response) as [t|e]; [|exists (BodyReadError e); split; [eauto 10|done]].
  destruct (JSON_parse P t) as [parsed|e];
    [|exists (BodyParseError e); split; [eauto 10|done]].
  destruct (safeParse (URL_canParse P) MurekaApiErrorEnvelopeSchema parsed)
    as [envelope|e] eqn:Hsafe.
  - apply envelope_validated in Hsafe as (message & _ & ->).
    rewrite envelope_message_of.
    destruct (STATUS_TO_ERROR !! status response) as [kind|] eqn:Hkind.
    + exists (ApiError kind). split; [|done].
      apply status_lookup_known in Hkind. do 4 right. left. eauto.
    + destruct (0 <? _)%nat.
      * exists (UnknownStatusError (status response) (Some (toLowerCase P message))).
        split; [|done]. do 5 right. left. eauto.
      * exists (UnknownStatusError (status response) None).
        split; [|done]. do 5 right. left. eauto.
  - unfold safeParse in Hsafe.
    destruct (zparse _ _ _ _) as [|issues] eqn:Hz; [done|]. injection Hsafe as <-.
    exists (EnvelopeParseError (ErrZod issues)). split; [|done].
    do 3 right. left. exists issues. split; [by eapply zparse_issues_nonempty|done].
Qed.

(** What a success response settles to: the validated body, or one of two
    failures. *)
Lemma settle_success_cases P response schema :
  ok response = true →
  (∃ data v, body_parses P response data ∧
             zparse (URL_canParse P) schema [] data = PValid v ∧
             settle P response schema = Ok v) ∨
  (∃ data issues, body_parses P response data ∧ issues ≠ [] ∧
                  zparse (URL_canParse P) schema [] data = PInvalid issues ∧
                  settle P response schema = Throw (ResponseShapeError issues)) ∨
  (∃ cause, json P response = Throw cause ∧
            settle P response schema = Throw (SuccessBodyParseError cause)).
Proof.
  intros Hok. unfold settle, json, body_parses. rewrite Hok. simpl negb. cbv iota.
  destruct (text response) as [t|e]; [|right; right; eauto].
  destruct (JSON_parse P t) as [data|e] eqn:Hparse; [|right; right; eauto].
  unfold safeParse.
  destruct (zparse _ _ _ _) as [v|issues] eqn:Hz.
  - left. exists data, v. eauto.
  - right. left. exists data, issues.
    split; [eauto|]. split; [by eapply zparse_issues_nonempty|done].
Qed.

(** X1. Whatever the host does, a call of [request] that fails does so
    with one of the eight failures of the taxonomy: no other error, such
    as a [TypeError] from reading the envelope, escapes. *)
Theorem request_failures_in_taxonomy
    (P : Platform) (key base endpoint : string) (options : RequestInit) (schema : Schema)
    (e : Error) :
  result (request P key base endpoint options schema) = Throw e → in_taxonomy e.
Proof.
  unfold request. simpl.
  destruct (fetch P _) as [response|cause].
  - destruct (ok response) eqn:Hok.
    + destruct (settle_success_cases P response schema Hok)
        as [(data & v & _ & _ & ->)|[(data & issues & _ & Hne & _ & ->)|(cause & _ & ->)]].
      * done.
      * intros [= <-]. unfold in_taxonomy. do 7 right. eauto.
      * intros [= <-]. unfold in_taxonomy. do 6 right. left. eauto.
    + destruct (settle_failure P response Hok) as (e' & He' & Hsettle).
      rewrite Hsettle. by intros [= <-].
  - intros [= <-]. left. eauto.
Qed.

Lemma request_failures_in_taxonomy_witness :
  in_taxonomy (ErrWrap (ErrNative "TypeError" "fetch failed") "unable to fetch response").
Proof.
  apply (request_failures_in_taxonomy offline_host "secret" MUREKA_API_BASE_URL
           "/v1/account/billing" get BillingInfoResponseSchema).
  reflexivity.
Defined.

(** X2. A value that [request] returns came from a 2xx response, is the
    validation of its body, validates to itself against the response
    schema and has no property the schema does not declare. *)
Theorem returned_value_is_validated
    (P : Platform) (key base endpoint : string) (options : RequestInit) (schema : Schema)
    (response : Response) (v : JsValue) :
  distinct_keys schema →
  fetch P (fetch_request key base endpoint options) = Ok response →
  result (request P key base endpoint options schema) = Ok v →
  ok response = true ∧
  (∃ data, body_parses P response data ∧
           zparse (URL_canParse P) schema [] data = PValid v) ∧
  zparse (URL_canParse P) schema [] v = PValid v ∧
  no_undeclared schema v.
Proof.
  intros Hkeys Hfetch. rewrite (request_settled _ _ _ _ _ _ _ Hfetch).
  destruct (ok response) eqn:Hok.
  - destruct (settle_success_cases P response schema Hok)
      as [(data & v' & Hbody & Hz & ->)|[(data & issues & _ & _ & _ & ->)|(cause & _ & ->)]];
      try done.
    intros [= <-]. split; [done|]. split; [eauto|]. split.
    + by eapply zparse_idempotent.
    + by eapply zparse_declared.
  - destruct (settle_failure P response Hok) as (e' & _ & Hsettle). by rewrite Hsettle.
Qed.

Lemma returned_value_is_validated_witness :
  zparse (λ url, String.prefix "https://" url) QuerySongTaskResponseSchema []
    song_task_body = PValid song_task_body ∧
  no_undeclared QuerySongTaskResponseSchema song_task_body.
Proof.
  destruct (returned_value_is_validated
              (canned_host (text_response 200 "{...}") (Ok song_task_body_traced))
              "secret" MUREKA_API_BASE_URL "/v1/song/query/task-1" get
              QuerySongTaskResponseSchema (text_response 200 "{...}") song_task_body)
    as (_ & _ & Hfixed & Hdeclared).
  - solve_distinct_keys.
  - reflexivity.
  - vm_compute. reflexivity.
  - split; [exact Hfixed | exact Hdeclared].
Defined.

(** X3. A failure response never yields a value, and the failure it
    yields is the same for every response schema: error handling does not
    depend on the endpoint. *)
Theorem failure_response_never_returns
    (P : Platform) (key base endpoint : string) (options : RequestInit)
    (response : Response) :
  fetch P (fetch_request key base endpoint options) = Ok response →
  ok response = false →
  ∃ e, in_taxonomy e ∧
       ∀ schema, result (request P key base endpoint options schema) = Throw e.
Proof.
  intros Hfetch Hok. destruct (settle_failure P response Hok) as (e & He & Hsettle).
  exists e. split; [done|]. intros schema.
  by rewrite (request_settled _ _ _ _ _ _ _ Hfetch).
Qed.

Lemma failure_response_never_returns_witness :
  ∃ e, in_taxonomy e ∧
       ∀ schema,
         result (request (canned_host (text_response 404 "{...}") (Ok song_task_body))
                   "secret" MUREKA_API_BASE_URL "/v1/song/query/task-1" get schema)
         = Throw e.
Proof.
  apply (failure_response_never_returns
           (canned_host (text_response 404 "{...}") (Ok song_task_body))
           "secret" MUREKA_API_BASE_URL "/v1/song/query/task-1" get
           (text_response 404 "{...}")); reflexivity.
Defined.

(** X4. When a success body lacks a declared property that is not
    optional, the call fails with the response-shape error, and its issues
    include a type issue at that property's path whose received type is
    [undefined]. *)
Theorem missing_required_property_reported
    (P : Platform) (key base endpoint : string) (options : RequestInit)
    (shape : list (string * Schema)) (response : Response)
    (data : gmap string JsValue) (k : string) (field : Schema) :
  fetch P (fetch_request key base endpoint options) = Ok response →
  ok response = true →
  body_parses P response (VObject data) →
  (k, field) ∈ shape →
  is_optional field = false →
  data !! k = None →
  ∃ issues expected,
    result (request P key base endpoint options (ZodObject shape))
    = Throw (ResponseShapeError issues) ∧
    invalid_type expected TUndefined [PKey k] ∈ issues.
Proof.
  intros Hfetch Hok Hbody Hin Hopt Hk.
  rewrite (request_settled _ _ _ _ _ _ _ Hfetch).
  rewrite (settle_success _ _ _ _ Hok Hbody), zparse_object.
  destruct (zparse_required_undefined (URL_canParse P) field ([] ++ [PKey k]) Hopt)
    as (expected & Hfield).
  pose proof (parse_fields_issues (URL_canParse P) [] data shape k field
                [invalid_type expected TUndefined ([] ++ [PKey k])] Hin) as Hissues.
  unfold access in Hissues. rewrite Hk in Hissues. simpl in Hissues.
  specialize (Hissues Hfield _ (list_elem_of_here _ _)).
  destruct (parse_fields (URL_canParse P) [] data shape) as [[|e es] out];
    simpl in Hissues.
  - by apply elem_of_nil in Hissues.
  - by exists (e :: es), expected.
Qed.

Lemma missing_required_property_reported_witness :
  ∃ issues expected,
    result (generateSong'
              (canned_host (text_response 200 "{...}") (Ok song_task_body_without_id))
              "secret" MUREKA_API_BASE_URL sample_song_input)
    = Throw (ResponseShapeError issues) ∧
    invalid_type expected TUndefined [PKey "id"] ∈ issues.
Proof.
  apply (missing_required_property_reported
           (canned_host (text_response 200 "{...}") (Ok song_task_body_without_id))
           "secret" MUREKA_API_BASE_URL "/v1/song/generate"
           (post_json (canned_host (text_response 200 "{...}")
                         (Ok song_task_body_without_id))
              (js_GenerateSongInput sample_song_input))
           _ (text_response 200 "{...}") (delete "id" song_task_fields) "id" ZodString).
  - reflexivity.
  - reflexivity.
  - exists "{...}". split; reflexivity.
  - apply list_elem_of_here.
  - reflexivity.
  - apply lookup_delete_eq.
Defined.

(** X5. The object a call returns has exactly the declared properties
    that the body has: no undeclared property is kept, no declared
    property of the body is lost, and none is made up. *)
Theorem returned_object_keys
    (P : Platform) (key base endpoint : string) (options : RequestInit)
    (shape : list (string * Schema)) (response : Response)
    (data : gmap string JsValue) (v : JsValue) :
  fetch P (fetch_request key base endpoint options) = Ok response →
  ok response = true →
  body_parses P response (VObject data) →
  result (request P key base endpoint options (ZodObject shape)) = Ok v →
  ∃ out, v = VObject out ∧ ∀ k, k ∈ dom out ↔ k ∈ dom data ∧ k ∈ declared shape.
Proof.
  intros Hfetch Hok Hbody.
  rewrite (request_settled _ _ _ _ _ _ _ Hfetch).
  rewrite (settle_success _ _ _ _ Hok Hbody), zparse_object.
  destruct (parse_fields (URL_canParse P) [] data shape) as [[|e es] out] eqn:Hfields;
    [|done].
  intros [= <-]. exists out. split; [done|]. by eapply parse_fields_keys.
Qed.

Lemma returned_object_keys_witness :
  ∃ out, song_task_body = VObject out ∧
         ∀ k, k ∈ dom out ↔
              k ∈ dom (<["trace_id" := VString "abc"]> song_task_fields) ∧
              k ∈ declared [("id", ZodString); ("created_at", ZodInt);
                            ("finished_at", ZodInt); ("model", ZodString);
                            ("status", ZodEnum TASK_STATUSES);
                            ("failed_reason", ZodOptional ZodString);
                            ("choices", ZodArray SongChoiceSchema)].
Proof.
  apply (returned_object_keys
           (canned_host (text_response 200 "{...}") (Ok song_task_body_traced))
           "secret" MUREKA_API_BASE_URL "/v1/song/query/task-1" get _
           (text_response 200 "{...}")).
  - reflexivity.
  - reflexivity.
  - exists "{...}". split; reflexivity.
  - vm_compute. reflexivity.
Defined.

Section Arrays.

Variable canParseURL : string → bool.

(** A validated array has the elements of the input, validated, in the
    same order. *)
Lemma parse_items_lookup element path :
  ∀ items start out,
    parse_items canParseURL element path start items = ([], out) →
    length out = length items ∧
    ∀ i x, items !! i = Some x →
      ∃ y, out !! i = Some y ∧
           zparse canParseURL element (path ++ [PIndex (start + i)]) x = PValid y.
Proof.
  induction items as [|x rest IH]; intros start out.
  - simpl. intros [= <-]. split; [done|]. intros i x Hi. by destruct i.
  - rewrite parse_items_cons.
    destruct (parse_items canParseURL element path (S start) rest) as [is' out'] eqn:Hrest.
    destruct (zparse canParseURL element (path ++ [PIndex start]) x) as [y|es] eqn:Hy.
    + intros [= -> <-]. destruct (IH _ _ Hrest) as [Hlen Hlookup].
      split; [simpl; by rewrite Hlen|].
      intros [|i] x' Hi; simpl in Hi.
      * injection Hi as <-. exists y. by rewrite Nat.add_0_r.
      * destruct (Hlookup i x' Hi) as (y' & Hout & Hz).
        exists y'. split; [done|]. by rewrite Nat.add_succ_r.
    + intros [= Hnil <-]. apply app_eq_nil in Hnil as [-> _].
      by apply zparse_issues_nonempty in Hy.
Qed.

End Arrays.

(** X6. The value [querySongTask] returns has as many choices as the
    body, in the same order: choice [i] is the validation of choice [i] of
    the body against [SongChoiceSchema]. *)
Theorem querySongTask_keeps_choices
    (P : Platform) (config : ClientConfig) (client : Client) (input : QuerySongTaskInput)
    (req : Request) (response : Response) (data : gmap string JsValue) (v : JsValue) :
  createClient P config = Ok client →
  issued (querySongTask client input) = [req] →
  fetch P req = Ok response →
  body_parses P response (VObject data) →
  result (querySongTask client input) = Ok v →
  ∃ out items choices,
    v = VObject out ∧
    data !! "choices" = Some (VArray items) ∧
    out !! "choices" = Some (VArray choices) ∧
    length choices = length items ∧
    ∀ i x, items !! i = Some x →
      ∃ y, choices !! i = Some y ∧
           zparse (URL_canParse P) SongChoiceSchema [PKey "choices"; PIndex i] x = PValid y.
Proof.
  unfold createClient. destruct (apiKey config) as [key|]; [|done].
  intros [= <-].
  change (querySongTask (client_object P key ?b) input)
    with (querySongTask' P key b input).
  unfold querySongTask'. rewrite request_issued.
  intros [= <-] Hfetch Hbody.
  rewrite (request_settled _ _ _ _ _ _ _ Hfetch).
  destruct (ok response) eqn:Hok.
  2:{ destruct (settle_failure P response Hok) as (e & _ & Hsettle). by rewrite Hsettle. }
  rewrite (settle_success _ _ _ _ Hok Hbody).
  unfold QuerySongTaskResponseSchema. rewrite zparse_object.
  destruct (parse_fields (URL_canParse P) [] data _) as [[|e es] out] eqn:Hfields; [|done].
  intros [= <-].
  match type of Hfields with
  | parse_fields _ _ _ ?shape = _ =>
      assert (Hnodup : NoDup (declared shape))
        by (apply (bool_decide_unpack _); vm_compute; exact I)
  end.
  pose proof (parse_fields_access _ _ _ _ Hnodup _ Hfields) as Hacc.
  rewrite Forall_forall in Hacc.
  specialize (Hacc ("choices", ZodArray SongChoiceSchema)). cbn [fst snd] in Hacc.
  assert (Hin : ("choices", ZodArray SongChoiceSchema)
                ∈ [("id", ZodString); ("created_at", ZodInt); ("finished_at", ZodInt);
                   ("model", ZodString); ("status", ZodEnum TASK_STATUSES);
                   ("failed_reason", ZodOptional ZodString);
                   ("choices", ZodArray SongChoiceSchema)])
    by (do 6 apply list_elem_of_further; apply list_elem_of_here).
  specialize (Hacc Hin). clear Hin.
  unfold access in Hacc at 1.
  destruct (data !! "choices") as [[ | | | | |items| ]|] eqn:Hdata;
    try (simpl in Hacc; discriminate Hacc).
  simpl default in Hacc. rewrite zparse_array in Hacc.
  destruct (parse_items (URL_canParse P) SongChoiceSchema _ 0 items)
    as [[|e es] choices] eqn:Hitems; [|done].
  injection Hacc as Hout.
  destruct (parse_items_lookup _ _ _ _ _ _ Hitems) as [Hlen Hlookup].
  exists out, items, choices. split; [done|]. split; [done|].
  split.
  { unfold access in Hout. destruct (out !! "choices"); simpl in Hout; congruence. }
  split; [done|]. intros i x Hi. by apply Hlookup.
Qed.

Lemma querySongTask_keeps_choices_witness :
  ∃ out items choices,
    VObject song_task_two_choices = VObject out ∧
    song_task_two_choices !! "choices" = Some (VArray items) ∧
    out !! "choices" = Some (VArray choices) ∧
    length choices = length items.
Proof.
  destruct (querySongTask_keeps_choices
              (canned_host (text_response 200 "{...}") (Ok (VObject song_task_two_choices)))
              {| apiKey := Some "secret"; apiBaseUrl := None |}
              (client_object
                 (canned_host (text_response 200 "{...}")
                    (Ok (VObject song_task_two_choices)))
                 "secret" MUREKA_API_BASE_URL)
              {| qs_task_id := "task-1" |}
              (fetch_request "secret" MUREKA_API_BASE_URL "/v1/song/query/task-1" get)
              (text_response 200 "{...}") song_task_two_choices
              (VObject song_task_two_choices))
    as (out & items & choices & Hv & Hitems & Hchoices & Hlen & _).
  - reflexivity.
  - reflexivity.
  - reflexivity.
  - exists "{...}". split; reflexivity.
  - vm_compute. reflexivity.
  - exists out, items, choices. repeat split; assumption.
Defined.

Lemma zparse_object_expected canParseURL shape path v :
  (∀ fields, v ≠ VObject fields) →
  zparse canParseURL (ZodObject shape) path v
  = PInvalid [invalid_type (ExpectedType TObject) (getParsedType v) path].
Proof. intros Hv. destruct v; try reflexivity. by destruct (Hv fields). Qed.

Lemma ResponseSchemas_objects schema :
  schema ∈ ResponseSchemas → ∃ shape, schema = ZodObject shape.
Proof.
  unfold ResponseSchemas. rewrite !elem_of_cons, elem_of_nil. intros Hin.
  repeat match goal with
         | H : _ ∨ _ |- _ => destruct H as [->|H]
         end; try (eexists; reflexivity). destruct Hin.
Qed.

(** X7. For each of the sixteen endpoints, a success body that is JSON
    but not an object ([null], an array, a string, a number, a boolean)
    fails with the response-shape error carrying one issue: an object was
    expected at the root. *)
Theorem non_object_body_rejected
    (P : Platform) (key base endpoint : string) (options : RequestInit) (schema : Schema)
    (response : Response) (data : JsValue) :
  fetch P (fetch_request key base endpoint options) = Ok response →
  ok response = true →
  body_parses P response data →
  schema ∈ ResponseSchemas →
  (∀ fields, data ≠ VObject fields) →
  result (request P key base endpoint options schema)
  = Throw (ResponseShapeError
             [invalid_type (ExpectedType TObject) (getParsedType data) []]).
Proof.
  intros Hfetch Hok Hbody Hschema Hdata.
  rewrite (request_settled _ _ _ _ _ _ _ Hfetch).
  rewrite (settle_success _ _ _ _ Hok Hbody).
  destruct (ResponseSchemas_objects _ Hschema) as [shape ->].
  by rewrite zparse_object_expected.
Qed.

Lemma non_object_body_rejected_witness :
  result (getBillingInfo' (canned_host (text_response 200 "null") (Ok VNull))
            "secret" MUREKA_API_BASE_URL)
  = Throw (ResponseShapeError [invalid_type (ExpectedType TObject) TNull []]).
Proof.
  apply (non_object_body_rejected
           (canned_host (text_response 200 "null") (Ok VNull))
           "secret" MUREKA_API_BASE_URL "/v1/account/billing" get
           BillingInfoResponseSchema (text_response 200 "null") VNull).
  - reflexivity.
  - reflexivity.
  - exists "null". split; reflexivity.
  - do 15 apply list_elem_of_further. apply list_elem_of_here.
  - intros fields. discriminate.
Defined.

(** X8. The envelope schema accepts a value exactly when it is an object
    whose [error] property is an object with a string [message], and what
    it hands on is the message alone: every other property of the envelope
    and of [error] is dropped. *)
Theorem envelope_validation_iff
    (canParseURL : string → bool) (v envelope : JsValue) :
  safeParse canParseURL MurekaApiErrorEnvelopeSchema v = Ok envelope ↔
  ∃ message, envelope_shaped v message ∧ envelope = envelope_of message.
Proof.
  split.
  - apply envelope_validated.
  - intros (message & Hshape & ->). by apply envelope_accepted.
Qed.

(** X9. A call on a client issues at most one request, whatever the
    response is: nothing is retried. It issues none exactly when it fails
    with the precondition error. *)
Theorem call_issues_at_most_one_request
    (P : Platform) (config : ClientConfig) (client : Client) (call : Call) :
  createClient P config = Ok client →
  (length (issued (invoke client call)) ≤ 1)%nat ∧
  (issued (invoke client call) = [] ↔
   result (invoke client call) = Throw PreconditionError).
Proof.
  unfold createClient. destruct (apiKey config) as [key|]; [|done].
  intros [= <-]. set (base := default MUREKA_API_BASE_URL (apiBaseUrl config)).
  assert (Hreq : ∀ endpoint options schema,
            (length (issued (request P key base endpoint options schema)) ≤ 1)%nat ∧
            (issued (request P key base endpoint options schema) = [] ↔
             result (request P key base endpoint options schema)
             = Throw PreconditionError)).
  { intros endpoint options schema. rewrite request_issued. split; [done|].
    split; [done|]. intros Hresult. by apply request_not_precondition in Hresult. }
  destruct call; try apply Hreq.
  simpl. unfold generateInstrumental'.
  destruct (gi_prompt input), (gi_instrumental_id input); try apply Hreq.
  simpl. split; [lia|done].
Qed.

Lemma call_issues_at_most_one_request_witness :
  (length (issued (invoke (client_object offline_host "secret" MUREKA_API_BASE_URL)
                     CallGetBillingInfo)) ≤ 1)%nat ∧
  (issued (invoke (client_object offline_host "secret" MUREKA_API_BASE_URL)
             CallGetBillingInfo) = [] ↔
   result (invoke (client_object offline_host "secret" MUREKA_API_BASE_URL)
             CallGetBillingInfo) = Throw PreconditionError).
Proof.
  apply (call_issues_at_most_one_request offline_host
           {| apiKey := Some "secret"; apiBaseUrl := None |}).
  reflexivity.
Defined.

(** X10. Every request a client issues goes to a path under [/v1/] of
    its base URL; it is a [GET] exactly when it has no body; and its body
    is a [FormData] exactly for [uploadFile] and [addUploadPart]. *)
Theorem requests_follow_method_and_body
    (P : Platform) (config : ClientConfig) (client : Client) (call : Call)
    (req : Request) :
  createClient P config = Ok client →
  req ∈ issued (invoke client call) →
  (req_method req = GET ↔ req_body req = None) ∧
  is_form_body (req_body req) = is_upload_call call ∧
  ∃ path,
    req_url req
    = default MUREKA_API_BASE_URL (apiBaseUrl config) +:+ ("/v1/" +:+ path).
Proof.
  unfold createClient. destruct (apiKey config) as [key|]; [|done].
  intros [= <-].
  destruct call; simpl;
    try (unfold generateInstrumental';
         destruct (gi_prompt input), (gi_instrumental_id input); simpl);
    try (by intros ?%elem_of_nil);
    intros ->%list_elem_of_singleton; simpl;
    (split; [by split|]); (split; [done|]); eexists; reflexivity.
Qed.

Lemma requests_follow_method_and_body_witness :
  ∃ path,
    req_url (fetch_request "secret" MUREKA_API_BASE_URL "/v1/song/query/task-1" get)
    = default MUREKA_API_BASE_URL None +:+ ("/v1/" +:+ path).
Proof.
  destruct (requests_follow_method_and_body offline_host
              {| apiKey := Some "secret"; apiBaseUrl := None |}
              (client_object offline_host "secret" MUREKA_API_BASE_URL)
              (CallQuerySongTask {| qs_task_id := "task-1" |})
              (fetch_request "secret" MUREKA_API_BASE_URL "/v1/song/query/task-1" get))
    as (_ & _ & Hurl).
  - reflexivity.
  - apply list_elem_of_here.
  - exact Hurl.
Defined.

(** X11. [generateInstrumental] with neither control field set fails
    with the precondition error and issues no request; with exactly one of
    them set it issues one [POST] to [/v1/instrumental/generate] and does
    not fail with the precondition error. *)
Theorem generateInstrumental_neither_or_one
    (P : Platform) (config : ClientConfig) (client : Client)
    (input : GenerateInstrumentalInput) :
  createClient P config = Ok client →
  (gi_prompt input = None → gi_instrumental_id input = None →
   issued (generateInstrumental client input) = [] ∧
   result (generateInstrumental client input) = Throw PreconditionError) ∧
  ((is_Some (gi_prompt input) ∧ gi_instrumental_id input = None) ∨
   (gi_prompt input = None ∧ is_Some (gi_instrumental_id input)) →
   (∃ req,
      issued (generateInstrumental client input) = [req] ∧
      req_method req = POST ∧
      req_url req
      = default MUREKA_API_BASE_URL (apiBaseUrl config) +:+ "/v1/instrumental/generate") ∧
   result (generateInstrumental client input) ≠ Throw PreconditionError).
Proof.
  unfold createClient. destruct (apiKey config) as [key|]; [|done].
  intros [= <-].
  change (generateInstrumental (client_object P key ?b) input)
    with (generateInstrumental' P key b input).
  unfold generateInstrumental'. split.
  - by intros -> ->.
  - intros Hone.
    destruct (gi_prompt input) as [prompt|], (gi_instrumental_id input) as [id|].
    + by destruct Hone as [[_ [=]]|[[=] _]].
    + split; [eexists; by repeat split | apply request_not_precondition].
    + split; [eexists; by repeat split | apply request_not_precondition].
    + by destruct Hone as [[[? [=]] _]|[_ [? [=]]]].
Qed.

Lemma generateInstrumental_neither_or_one_witness :
  (issued (generateInstrumental
             (client_object offline_host "secret" MUREKA_API_BASE_URL)
             {| gi_model := instrumental_auto; gi_prompt := None;
                gi_instrumental_id := None |}) = [] ∧
   result (generateInstrumental
             (client_object offline_host "secret" MUREKA_API_BASE_URL)
             {| gi_model := instrumental_auto; gi_prompt := None;
                gi_instrumental_id := None |}) = Throw PreconditionError) ∧
  result (generateInstrumental
            (client_object offline_host "secret" MUREKA_API_BASE_URL)
            {| gi_model := instrumental_auto; gi_prompt := Some "calm piano";
               gi_instrumental_id := None |}) ≠ Throw PreconditionError.
Proof.
  split.
  - apply (generateInstrumental_neither_or_one offline_host
             {| apiKey := Some "secret"; apiBaseUrl := None |}
             (client_object offline_host "secret" MUREKA_API_BASE_URL)
             {| gi_model := instrumental_auto; gi_prompt := None;
                gi_instrumental_id := None |} eq_refl); reflexivity.
  - apply (generateInstrumental_neither_or_one offline_host
             {| apiKey := Some "secret"; apiBaseUrl := None |}
             (client_object offline_host "secret" MUREKA_API_BASE_URL)
             {| gi_model := instrumental_auto; gi_prompt := Some "calm piano";
                gi_instrumental_id := None |} eq_refl).
    left. split; [by eexists | reflexivity].
Defined.



(** X13. The error of a failure response with a well-formed envelope
    names the status of that response: whether the status is in the table
    or not, the text of the innermost error begins with [(status: N)] for
    the response's own status [N]. *)
Theorem failure_error_names_status
    (P : Platform) (key base endpoint : string) (options : RequestInit) (schema : Schema)
    (response : Response) (parsed : JsValue) (message : string) :
  fetch P (fetch_request key base endpoint options) = Ok response →
  ok response = false →
  body_parses P response parsed →
  envelope_shaped parsed message →
  ∃ e rest,
    result (request P key base endpoint options schema) = Throw e ∧
    root_message e
    = Some ("(status: " +:+ pretty (status response) +:+ ")" +:+ rest).
Proof.
  intros Hfetch Hok Hbody Hshape.
  rewrite (request_settled _ _ _ _ _ _ _ Hfetch).
  rewrite (settle_envelope _ _ _ _ _ Hok Hbody Hshape).
  destruct (STATUS_TO_ERROR !! status response) as [kind|] eqn:Hkind.
  - apply status_lookup_known in Hkind. unfold ApiErrorKinds in Hkind.
    rewrite !elem_of_cons, elem_of_nil in Hkind.
    destruct Hkind as [H|[H|[H|[H|[H|[H|[]]]]]]]; injection H as -> ->;
      eexists _, _; (split; [reflexivity|]); vm_compute; reflexivity.
  - destruct (0 <? _)%nat; eexists _, _; (split; [reflexivity|]); reflexivity.
Qed.

Lemma failure_error_names_status_witness :
  ∃ e rest,
    result (request (canned_host (text_response 503 "{...}") (Ok (envelope_of "busy")))
              "secret" MUREKA_API_BASE_URL "/v1/account/billing" get
              BillingInfoResponseSchema) = Throw e ∧
    root_message e = Some ("(status: " +:+ pretty (503 : Z) +:+ ")" +:+ rest).
Proof.
  apply (failure_error_names_status
           (canned_host (text_response 503 "{...}") (Ok (envelope_of "busy")))
           "secret" MUREKA_API_BASE_URL "/v1/account/billing" get
           BillingInfoResponseSchema (text_response 503 "{...}")
           (envelope_of "busy") "busy").
  - reflexivity.
  - reflexivity.
  - exists "{...}". split; reflexivity.
  - eexists _, _. repeat split; reflexivity.
Defined.
